(** * TED database operations: a shallow embedding of [baseOperations.ts]

    The development models the operation layer of the TED server
    ([BaseOperation], [SaveOperation], [GetOperation], [RemoveOperation],
    [BatchOperation]) and proves properties of table naming, entry
    building, operation building, result post-processing and the batch
    recovery protocol.

    Conventions.
    - JavaScript strings are [string]s (sequences of 8-bit code units).
    - A value of type [T | undefined] or [T | null] is an [option T].
    - [new Error(msg)] is a record carrying the message and no code; errors
      are compared as values.
    - A method that may throw returns [JsError + A]; an [async] method is a
      computation in the monad [M] (state of the world plus exception),
      where [await] is sequencing.
    - Objects that the code mutates through a reference it did not create
      (the result envelope handed back by a backend) live in a [Heap] and
      are passed around as references. *)

From Stdlib Require Import ZArith String Ascii List Lia Permutation.
From stdpp Require Import base option gmap strings list.

Import ListNotations.
Local Open Scope string_scope.
Local Open Scope list_scope.

(** ** Errors *)

(** A thrown JavaScript error: [message], and the numeric [code] that
    backend response errors carry (the two fields of
    [myTypes.CQLResponseError] that the handler of
    [BatchOperation.execute] reads). *)
Record JsError := mkJsError {
  message : string;
  code : option Z
}.

(** [new Error(msg)]. *)
Definition new_Error (msg : string) : JsError :=
  {| message := msg; code := None |}.

(** [export const tableCreationError = new Error(...)]. *)
Definition tableCreationError : JsError :=
  new_Error "Table creation needed, canceling operation".

(** ** Table names *)

(** The loop of [buildTableName]: [res.push(collections[i]); res.push("_")]. *)
Fixpoint buildTableName_loop (collections : list string) (res : list string)
  : list string :=
  match collections with
  | [] => res
  | c :: rest => buildTableName_loop rest (res ++ [c; "_"])
  end.

(** [Array.prototype.slice(0, -1)]: everything but the last element. *)
Definition slice_0_minus1 {A : Type} (l : list A) : list A := removelast l.

(** [Array.prototype.join("")] on an array of strings. *)
Definition join_empty (l : list string) : string :=
  fold_right String.append "" l.

(** [BaseOperation.buildTableName], as a function of [this.collections]. *)
Definition buildTableName (collections : list string) : string :=
  join_empty (slice_0_minus1 (buildTableName_loop collections [])).

(** The specification's naming: the path joined with ["_"] between
    consecutive names. *)
Definition joined_with_underscore (p : list string) : string :=
  String.concat "_" p.

(** A name that does not contain the separator character. *)
Fixpoint no_separator (s : string) : bool :=
  match s with
  | EmptyString => true
  | String c s' => negb (Ascii.eqb c "_") && no_separator s'
  end.

(** ** Entries *)

(** [collections[i]] used as a property key: out of range it is
    [undefined], which names the property ["undefined"]. *)
Definition key_at (collections : list string) (i : nat) : string :=
  default "undefined" (collections !! i).

(** [entry[k] = v] on an object created by the literal [{}], for a string
    [v]: an own property is written, except under the name ["__proto__"],
    which is the accessor inherited from [Object.prototype] and ignores a
    value that is not an object. *)
Definition set_property (k v : string) (entry : gmap string string)
  : gmap string string :=
  if String.eqb k "__proto__" then entry else <[k := v]> entry.

(** The loop of [BaseOperation.buildEntry], from index [i] on:
    [entry[collections[i]] = documents[i]] for every [i] below
    [documents.length]. *)
Fixpoint buildEntry_loop (collections : list string) (i : nat)
    (documents_from_i : list string) (entry : gmap string string)
  : gmap string string :=
  match documents_from_i with
  | [] => entry
  | d :: ds =>
      buildEntry_loop collections (S i) ds
        (set_property (key_at collections i) d entry)
  end.

(** [BaseOperation.buildEntry], as a function of [this.collections] and
    [this.documents].  Nothing in the [try] block can throw on arrays of
    strings, so the function is total. *)
Definition buildEntry (collections documents : list string)
  : gmap string string :=
  buildEntry_loop collections 0 documents ∅.

(** [SaveOperation.buildEntry]: the base entry with the payload stored
    under ["object"].  [object] is the payload that [buildOperation] has
    checked to be defined. *)
Definition SaveOperation_buildEntry (collections documents : list string)
    (object : string) : gmap string string :=
  set_property "object" object (buildEntry collections documents).

(** ** The data model *)

Module myTypes.

(** [myTypes.action]. *)
Inductive action := save | get | remove | batch.

End myTypes.

(** Types that the operations only pass through; they are declared in
    modules outside this file ([myTypes], the adapters, the orderer). *)
Class Shapes := {
  (** [SaveOptions] / [GetOptions] *)
  Options : Type;
  (** the literal [{}] *)
  empty_options : Options;
  (** an element of [allResultsEnc] *)
  EncObject : Type;
  (** the fields of [QueryResult] other than [allResultsEnc], [pageToken] *)
  QueryResultRest : Type;
  (** the fields of [ServerAnswer] other than [queryResults] *)
  ServerAnswerRest : Type;
  (** an [Orderer] instance *)
  Orderer : Type
}.

Section DataModel.
Context `{Shapes}.

(** [myTypes.InternalOperationDescription], the fields the constructors
    read. *)
Record InternalOperationDescription := {
  req_action : myTypes.action;
  req_collections : list string;
  req_documents : list string;
  req_opID : string;
  req_encObject : option string;
  req_options : option Options
}.

(** The argument object of the adapters' constructors.  [par_options] is
    absent for remove operations. *)
Record OperationParams := {
  par_action : myTypes.action;
  par_keys : gmap string string;
  par_table : string;
  par_options : option Options
}.

(** The backend operation objects, one constructor per adapter class. *)
Inductive BackendOperation :=
| CQLSaveOperation (p : OperationParams)
| SQLSaveOperation (p : OperationParams)
| CQLGetOperation (p : OperationParams)
| SQLGetOperation (p : OperationParams)
| CQLRemoveOperation (p : OperationParams)
| SQLRemoveOperation (p : OperationParams).

(** The composed handles of a batch. *)
Inductive BackendBatch :=
| CQLBatchOperation (ops : list BackendOperation)
| CQLOperationArray (ops : list BackendOperation)
| SQLBatchOperation (ops : list BackendOperation)
| SQLOperationArray (ops : list BackendOperation).

(** How the promise returned by one call of the abstract [createTable()]
    settles: at which tick of the event loop, and whether it is rejected
    ([None]: it resolves). *)
Record Settlement := {
  settles_at : nat;
  rejection : option JsError
}.

(** The fields of [BaseOperation]; [createTable] stands for the subclass's
    implementation of the abstract method. *)
Record BaseOperation := {
  action : myTypes.action;
  collections : list string;
  documents : list string;
  table : option string;
  opID : string;
  operation : option BackendOperation;
  canCreateTable : bool;
  createTable : Settlement
}.

Record SaveOperation := {
  save_base : BaseOperation;
  object : option string;
  save_options : option Options
}.

Record GetOperation := {
  get_base : BaseOperation;
  get_options : option Options;
  constResToken : option string;
  orderer : option Orderer
}.

Record RemoveOperation := {
  remove_base : BaseOperation
}.

Record BatchOperation := {
  batch_action : myTypes.action;
  operationsArray : list BaseOperation;
  isolation : bool;
  batch_operation : option BackendBatch
}.

(** *** Result envelopes *)

Definition ref := nat.

(** Modelled from the spec: the declaration of [myTypes.QueryResult] is
    not among the sources; the envelope's [queryResults] optionally
    contains [allResultsEnc] (the raw result list) and [pageToken], the
    two fields [GetOperation.execute] touches, next to its other fields. *)
Record QueryResult := {
  allResultsEnc : option (list EncObject);
  pageToken : option string;
  qr_rest : QueryResultRest
}.

(** Modelled from the spec: the declaration of [myTypes.ServerAnswer] is
    not among the sources; the result envelope carries an optional
    [queryResults], a reference to a [QueryResult] object, next to its
    other fields. *)
Record ServerAnswer := {
  queryResults : option ref;
  sa_rest : ServerAnswerRest
}.

(** The objects handed back by the backends. *)
Record Heap := {
  answers : gmap ref ServerAnswer;
  results : gmap ref QueryResult
}.

(** *** Observable events *)

Inductive Event :=
| EvExecute (h : BackendOperation)
| EvExecuteBatch (h : BackendBatch)
| EvCreateTable (op : BaseOperation)
| EvSettled (op : BaseOperation)
| EvDone (op : BaseOperation).

Record World := {
  heap : Heap;
  trace : list Event
}.

(** *** Asynchronous computations *)

Definition M (A : Type) : Type := World -> World * (JsError + A).

Definition ret {A : Type} (a : A) : M A := fun w => (w, inr a).

Definition throw {A : Type} (e : JsError) : M A := fun w => (w, inl e).

Definition bind {A B : Type} (c : M A) (k : A -> M B) : M B :=
  fun w =>
    match c w with
    | (w', inl e) => (w', inl e)
    | (w', inr a) => k a w'
    end.

(** [promise.catch(handler)] *)
Definition catch {A : Type} (c : M A) (handler : JsError -> M A) : M A :=
  fun w =>
    match c w with
    | (w', inl e) => handler e w'
    | (w', inr a) => (w', inr a)
    end.

Definition emit (evs : list Event) : M unit :=
  fun w => ({| heap := heap w; trace := trace w ++ evs |}, inr tt).

Definition get_heap : M Heap := fun w => (w, inr (heap w)).

Definition modify_heap (f : Heap -> Heap) : M unit :=
  fun w => ({| heap := f (heap w); trace := trace w |}, inr tt).

End DataModel.

Notation "'await' x <- c ;; k" := (bind c (fun x => k))
  (at level 10, x name, c at level 99, k at level 200).
Notation "'await_' c ;; k" := (bind c (fun _ => k))
  (at level 10, c at level 99, k at level 200).

(** ** Classification of backend errors *)

(** [s] without the prefix [p], when [s] starts with [p]. *)
Fixpoint strip_prefix (p s : string) : option string :=
  match p, s with
  | EmptyString, _ => Some s
  | String a p', String b s' =>
      if Ascii.eqb a b then strip_prefix p' s' else None
  | String _ _, EmptyString => None
  end.

(** The character class [[a-zA-z_]]: the ranges [a-z] and [A-z] (capital A
    to small z, code units 65 to 122) and the underscore. *)
Definition in_name_class (c : ascii) : bool :=
  let n := nat_of_ascii c in
  (Nat.leb 97 n && Nat.leb n 122) || (Nat.leb 65 n && Nat.leb n 122)
  || Ascii.eqb c "_".

(** What [.] matches without the [s] flag: anything but a line terminator
    (of which line feed and carriage return are 8-bit code units). *)
Definition matches_dot (c : ascii) : bool :=
  negb (Nat.eqb (nat_of_ascii c) 10 || Nat.eqb (nat_of_ascii c) 13).

(** The greedy [[a-zA-z_]*]: the rest of [s] after its longest prefix of
    class characters. *)
Fixpoint skip_name (s : string) : string :=
  match s with
  | EmptyString => EmptyString
  | String c s' => if in_name_class c then skip_name s' else s
  end.

(** Whether [msg.match(re)] is not [null], for the regular expression [re]
    of the handler: anchored at the start, the text "Collection ", a
    captured greedy run of class characters, the text " does not exist",
    and one [.]. *)
Definition matches_collection_missing (msg : string) : bool :=
  match strip_prefix "Collection " msg with
  | None => false
  | Some rest =>
      match strip_prefix " does not exist" (skip_name rest) with
      | Some (String c _) => matches_dot c
      | _ => false
      end
  end.

(** The strings the regular expression denotes, read off its syntax: the
    text "Collection ", any run [name] of class characters, the text
    " does not exist", one character [c] that [.] matches, and any [tail]
    (the expression is not anchored at the end). *)
Fixpoint all_name_class (s : string) : bool :=
  match s with
  | EmptyString => true
  | String c s' => in_name_class c && all_name_class s'
  end.

Definition collection_missing_shape (msg : string) : Prop :=
  exists (name : string) (c : ascii) (tail : string),
    msg = String.append "Collection "
            (String.append name
               (String.append " does not exist" (String c tail)))
    /\ all_name_class name = true
    /\ matches_dot c = true.

(** [code === 8704] *)
Definition code_is (n : Z) (c : option Z) : bool :=
  match c with
  | Some k => Z.eqb k n
  | None => false
  end.

(** The condition of the [catch] handler in [BatchOperation.execute]. *)
Definition is_table_missing (err : JsError) : bool :=
  (code_is 8704 (code err)
   && String.eqb (substring 0 18 (message err)) "unconfigured table")
  || matches_collection_missing (message err).

(** ** Operations *)

Inductive Core := CQL | SQL.

(** What lies behind the imports: the database core selected by the
    configuration when the module is loaded, the orderer, and the
    [execute()] methods of the adapters' objects. *)
Class Backend `{Shapes} := {
  core : Core;
  Orderer_new : list string -> Orderer;
  Orderer_order : Orderer -> list EncObject -> option string -> list EncObject;
  backend_execute : BackendOperation -> Heap -> Heap * (JsError + ref);
  backend_execute_batch : BackendBatch -> Heap -> Heap * (JsError + ref)
}.

Section Operations.
Context `{Backend}.

(** [this.operation.execute()] for a single operation, as a computation. *)
Definition run_operation (h : BackendOperation) : M ref :=
  fun w =>
    let (hp, r) := backend_execute h (heap w) in
    ({| heap := hp; trace := trace w ++ [EvExecute h] |}, r).

(** [this.operation.execute()] for a batch. *)
Definition run_batch (h : BackendBatch) : M ref :=
  fun w =>
    let (hp, r) := backend_execute_batch h (heap w) in
    ({| heap := hp; trace := trace w ++ [EvExecuteBatch h] |}, r).

(** *** BaseOperation *)

(** The constructor; [impl] is the subclass's [createTable]. *)
Definition BaseOperation_new (request : InternalOperationDescription)
    (impl : Settlement) : BaseOperation :=
  {| action := req_action request;
     collections := req_collections request;
     documents := req_documents request;
     table := None;
     opID := req_opID request;
     operation := None;
     canCreateTable := false;
     createTable := impl |}.

Definition set_action (a : myTypes.action) (this : BaseOperation)
  : BaseOperation :=
  {| action := a;
     collections := collections this;
     documents := documents this;
     table := table this;
     opID := opID this;
     operation := operation this;
     canCreateTable := canCreateTable this;
     createTable := createTable this |}.

Definition set_operation (o : BackendOperation) (this : BaseOperation)
  : BaseOperation :=
  {| action := action this;
     collections := collections this;
     documents := documents this;
     table := table this;
     opID := opID this;
     operation := Some o;
     canCreateTable := canCreateTable this;
     createTable := createTable this |}.

(** [BaseOperation.execute] *)
Definition BaseOperation_execute (this : BaseOperation) : M ref :=
  match operation this with
  | None => throw (new_Error "unable to execute CQL operation, query not built")
  | Some o => run_operation o
  end.

(** [options: this.options === undefined ? {} : this.options] *)
Definition options_or_empty (o : option Options) : Options :=
  match o with
  | None => empty_options
  | Some x => x
  end.

(** *** SaveOperation *)

Definition SaveOperation_new (request : InternalOperationDescription)
    (impl : Settlement) : JsError + SaveOperation :=
  let base := BaseOperation_new request impl in
  if negb (Nat.eqb (length (documents base)) (length (collections base)))
  then inl (new_Error "Invalid path length parity for a save operation")
  else
    match req_encObject request with
    | None => inl (new_Error "Missing field object for a save operation")
    | Some enc =>
        inr {| save_base := set_action myTypes.save base;
               object := Some enc;
               save_options := req_options request |}
    end.

(** [SaveOperation.buildOperation]: the object after the call, and whether
    the call threw. *)
Definition SaveOperation_buildOperation (this : SaveOperation)
  : SaveOperation * (JsError + unit) :=
  match object this with
  | None => (this, inl (new_Error "Operation entry undefined"))
  | Some obj =>
      match table (save_base this) with
      | None => (this, inl (new_Error "Undefined table"))
      | Some tbl =>
          let entry :=
            SaveOperation_buildEntry (collections (save_base this))
              (documents (save_base this)) obj in
          let params :=
            {| par_action := action (save_base this);
               par_keys := entry;
               par_table := tbl;
               par_options := Some (options_or_empty (save_options this)) |} in
          let o :=
            match core with
            | CQL => CQLSaveOperation params
            | SQL => SQLSaveOperation params
            end in
          ({| save_base := set_operation o (save_base this);
              object := object this;
              save_options := save_options this |}, inr tt)
      end
  end.

(** [SaveOperation] inherits [execute]. *)
Definition SaveOperation_execute (this : SaveOperation) : M ref :=
  BaseOperation_execute (save_base this).

(** *** GetOperation *)

Definition GetOperation_new (request : InternalOperationDescription)
    (pageToken : option string) (order : option (list string))
    (impl : Settlement) : GetOperation :=
  {| get_base := set_action myTypes.get (BaseOperation_new request impl);
     get_options := req_options request;
     constResToken := pageToken;
     orderer := option_map Orderer_new order |}.

Definition GetOperation_buildOperation (this : GetOperation)
  : GetOperation * (JsError + unit) :=
  match table (get_base this) with
  | None => (this, inl (new_Error "Undefined table"))
  | Some tbl =>
      let entry :=
        buildEntry (collections (get_base this)) (documents (get_base this)) in
      let params :=
        {| par_action := action (get_base this);
           par_keys := entry;
           par_table := tbl;
           par_options := Some (options_or_empty (get_options this)) |} in
      let o :=
        match core with
        | CQL => CQLGetOperation params
        | SQL => SQLGetOperation params
        end in
      ({| get_base := set_operation o (get_base this);
          get_options := get_options this;
          constResToken := constResToken this;
          orderer := orderer this |}, inr tt)
  end.

(** [res.queryResults], read through the reference [res]. *)
Definition read_queryResults (h : Heap) (res : ref) : option ref :=
  match answers h !! res with
  | Some sa => queryResults sa
  | None => None
  end.

(** [q.allResultsEnc], read through the reference [q]. *)
Definition read_allResultsEnc (h : Heap) (q : ref)
  : option (list EncObject) :=
  match results h !! q with
  | Some qr => allResultsEnc qr
  | None => None
  end.

Definition with_pageToken (t : string) (qr : QueryResult) : QueryResult :=
  {| allResultsEnc := allResultsEnc qr;
     pageToken := Some t;
     qr_rest := qr_rest qr |}.

Definition with_allResultsEnc (l : list EncObject) (qr : QueryResult)
  : QueryResult :=
  {| allResultsEnc := Some l;
     pageToken := pageToken qr;
     qr_rest := qr_rest qr |}.

(** [q.pageToken = t] *)
Definition write_pageToken (q : ref) (t : string) (h : Heap) : Heap :=
  {| answers := answers h;
     results := alter (with_pageToken t) q (results h) |}.

(** [q.allResultsEnc = l] *)
Definition write_allResultsEnc (q : ref) (l : list EncObject) (h : Heap)
  : Heap :=
  {| answers := answers h;
     results := alter (with_allResultsEnc l) q (results h) |}.

(** [this.collections.slice(-1)[0]]: the last collection name, [undefined]
    on an empty path. *)
Definition last_collection (this : BaseOperation) : option string :=
  last (collections this).

(** The first [if] of [GetOperation.execute], on the heap in which [res]
    lives. *)
Definition stamp_pageToken (this : GetOperation) (res : ref) (h : Heap)
  : Heap :=
  match constResToken this, read_queryResults h res with
  | Some t, Some q => write_pageToken q t h
  | _, _ => h
  end.

(** The second [if] of [GetOperation.execute]. *)
Definition order_results (this : GetOperation) (res : ref) (h : Heap)
  : Heap :=
  match orderer this, read_queryResults h res with
  | Some o, Some q =>
      match read_allResultsEnc h q with
      | Some l =>
          write_allResultsEnc q
            (Orderer_order o l (last_collection (get_base this))) h
      | None => h
      end
  | _, _ => h
  end.

(** [GetOperation.execute] *)
Definition GetOperation_execute (this : GetOperation) : M ref :=
  await res <- BaseOperation_execute (get_base this) ;;
  await_ modify_heap (stamp_pageToken this res) ;;
  await_ modify_heap (order_results this res) ;;
  ret res.

(** What the two updates make of the query result of the envelope: the
    token is replaced when one was supplied, the list is replaced by the
    orderer's when an orderer was built and the list is defined. *)
Definition processed (this : GetOperation) (qr : QueryResult) : QueryResult :=
  {| allResultsEnc :=
       match orderer this, allResultsEnc qr with
       | Some o, Some l =>
           Some (Orderer_order o l (last_collection (get_base this)))
       | _, _ => allResultsEnc qr
       end;
     pageToken :=
       match constResToken this with
       | Some t => Some t
       | None => pageToken qr
       end;
     qr_rest := qr_rest qr |}.

(** *** RemoveOperation *)

Definition RemoveOperation_new (request : InternalOperationDescription)
    (impl : Settlement) : RemoveOperation :=
  {| remove_base := set_action myTypes.remove (BaseOperation_new request impl) |}.

Definition RemoveOperation_buildOperation (this : RemoveOperation)
  : RemoveOperation * (JsError + unit) :=
  match table (remove_base this) with
  | None => (this, inl (new_Error "Undefined table"))
  | Some tbl =>
      let entry :=
        buildEntry (collections (remove_base this))
          (documents (remove_base this)) in
      let params :=
        {| par_action := action (remove_base this);
           par_keys := entry;
           par_table := tbl;
           par_options := None |} in
      let o :=
        match core with
        | CQL => CQLRemoveOperation params
        | SQL => SQLRemoveOperation params
        end in
      ({| remove_base := set_operation o (remove_base this) |}, inr tt)
  end.

(** [RemoveOperation] inherits [execute]. *)
Definition RemoveOperation_execute (this : RemoveOperation) : M ref :=
  BaseOperation_execute (remove_base this).

(** *** BatchOperation *)

Definition is_batch_or_get (a : myTypes.action) : bool :=
  match a with
  | myTypes.batch | myTypes.get => true
  | _ => false
  end.

Definition composition_error : JsError :=
  new_Error "Batch cannot contain batch or get operations".

(** The loop of the constructor. *)
Fixpoint check_members (ops : list BaseOperation) : JsError + unit :=
  match ops with
  | [] => inr tt
  | op :: rest =>
      if is_batch_or_get (action op) then inl composition_error
      else check_members rest
  end.

(** The constructor. *)
Definition BatchOperation_new (batch : list BaseOperation) (isolation : bool)
  : JsError + BatchOperation :=
  match check_members batch with
  | inl e => inl e
  | inr _ =>
      inr {| batch_action := myTypes.batch;
             operationsArray := batch;
             isolation := isolation;
             batch_operation := None |}
  end.

(** [BatchOperation.push] *)
Definition BatchOperation_push (this : BatchOperation)
    (operation : BaseOperation) : BatchOperation * (JsError + unit) :=
  if is_batch_or_get (action operation) then (this, inl composition_error)
  else
    ({| batch_action := batch_action this;
        operationsArray := operationsArray this ++ [operation];
        isolation := isolation this;
        batch_operation := batch_operation this |}, inr tt).

(** The loops of [BatchOperation.buildOperation], which collect the
    members' backend operations. *)
Fixpoint collect_operations (ops : list BaseOperation)
    (acc : list BackendOperation) : JsError + list BackendOperation :=
  match ops with
  | [] => inr acc
  | op :: rest =>
      match operation op with
      | None => inl (new_Error "Batch error, a base operation is not built")
      | Some o => collect_operations rest (acc ++ [o])
      end
  end.

(** [BatchOperation.buildOperation] *)
Definition BatchOperation_buildOperation (this : BatchOperation)
  : BatchOperation * (JsError + unit) :=
  match collect_operations (operationsArray this) [] with
  | inl e => (this, inl e)
  | inr arr =>
      let h :=
        match core, isolation this with
        | CQL, true => CQLBatchOperation arr
        | CQL, false => CQLOperationArray arr
        | SQL, true => SQLBatchOperation arr
        | SQL, false => SQLOperationArray arr
        end in
      ({| batch_action := batch_action this;
          operationsArray := operationsArray this;
          isolation := isolation this;
          batch_operation := Some h |}, inr tt)
  end.

(** The order in which pending promises settle: by tick, and among those
    of one tick in the order they were created. *)
Fixpoint insert_by_tick (p : BaseOperation) (l : list BaseOperation)
  : list BaseOperation :=
  match l with
  | [] => [p]
  | q :: l' =>
      if Nat.leb (settles_at (createTable p)) (settles_at (createTable q))
      then p :: q :: l'
      else q :: insert_by_tick p l'
  end.

Definition settle_order (ps : list BaseOperation) : list BaseOperation :=
  fold_right insert_by_tick [] ps.

(** Waiting on promises in the order they settle, up to the first
    rejection. *)
Fixpoint await_settlements (ps : list BaseOperation) : M unit :=
  match ps with
  | [] => ret tt
  | p :: rest =>
      await_ emit [EvSettled p] ;;
      match rejection (createTable p) with
      | Some e => throw e
      | None => await_settlements rest
      end
  end.

(** [await Promise.all(promises)], for the promises returned by the
    [createTable()] calls of [ps]: resolves once every promise has
    resolved, rejects with the reason of the first promise to reject. *)
Definition Promise_all (ps : list BaseOperation) : M unit :=
  await_settlements (settle_order ps).

(** [BatchOperation.createAllTables] *)
Definition BatchOperation_createAllTables (this : BatchOperation) : M unit :=
  let promises := List.filter canCreateTable (operationsArray this) in
  await_ emit (map EvCreateTable promises) ;;
  Promise_all promises.

(** The [catch] handler of [BatchOperation.execute]. *)
Definition recovery_handler (this : BatchOperation) (err : JsError) : M ref :=
  if is_table_missing err
  then await_ BatchOperation_createAllTables this ;; throw tableCreationError
  else throw err.

(** [BatchOperation.execute]: the object after the call, the world after
    the call, and the result or the error thrown. *)
Definition BatchOperation_execute (this : BatchOperation) (w : World)
  : BatchOperation * (World * (JsError + ref)) :=
  let (this1, built) := BatchOperation_buildOperation this in
  match built with
  | inl e => (this1, (w, inl e))
  | inr _ =>
      match batch_operation this1 with
      | None => (this1, (w, inl (new_Error "Error in batch, operation not built")))
      | Some h =>
          (this1,
           (await res <- catch (run_batch h) (recovery_handler this1) ;;
            await_ emit (map EvDone (operationsArray this1)) ;;
            ret res) w)
      end
  end.

(** *** The targeted table creation of a batch *)

(** The character class of the expression in [BatchOperation.createTable]:
    the dot, the ranges [a-z], [A-Z], [0-9] and the underscore. *)
Definition in_table_class (c : ascii) : bool :=
  let n := nat_of_ascii c in
  Ascii.eqb c "." || (Nat.leb 97 n && Nat.leb n 122)
  || (Nat.leb 65 n && Nat.leb n 90) || (Nat.leb 48 n && Nat.leb n 57)
  || Ascii.eqb c "_".

Fixpoint all_table_class (s : string) : bool :=
  match s with
  | EmptyString => true
  | String c s' => in_table_class c && all_table_class s'
  end.

(** [errmsg.match(re)] for the expression [re] of
    [BatchOperation.createTable], a greedy run of class characters
    followed by the end of the input: the search tries every start
    position from the left, and at a position the run matches when it
    reaches the end of the string; at the end of the string the empty run
    matches.  The result is the matched text, [parse[0]]. *)
Fixpoint match_trailing_name (s : string) : option string :=
  match s with
  | EmptyString => Some EmptyString
  | String _ s' => if all_table_class s then Some s else match_trailing_name s'
  end.

(** The loop of [BatchOperation.createTable]: the first member whose table
    name is [tableName] has its [createTable()] awaited. *)
Fixpoint create_first_named (ops : list BaseOperation) (tableName : string)
  : M unit :=
  match ops with
  | [] =>
      throw (new_Error
               (String.append
                  "Unable to find which operation triggered the error inside the batch "
                  tableName))
  | op :: rest =>
      if String.eqb (buildTableName (collections op)) tableName
      then await_ emit [EvCreateTable op] ;; await_settlements [op]
      else create_first_named rest tableName
  end.

(** [BatchOperation.createTable(errmsg)] *)
Definition BatchOperation_createTable (this : BatchOperation)
    (errmsg : string) : M unit :=
  match match_trailing_name errmsg with
  | None => throw (new_Error "Unable to parse table name in batch error")
  | Some tableName => create_first_named (operationsArray this) tableName
  end.

(** *** Observations on handles and events *)

(** The array a composed handle was constructed from. *)
Definition handle_operations (h : BackendBatch) : list BackendOperation :=
  match h with
  | CQLBatchOperation ops | CQLOperationArray ops
  | SQLBatchOperation ops | SQLOperationArray ops => ops
  end.

(** Whether a composed handle is one of the two batch classes (as opposed
    to the operation arrays). *)
Definition handle_is_batch (h : BackendBatch) : bool :=
  match h with
  | CQLBatchOperation _ | SQLBatchOperation _ => true
  | CQLOperationArray _ | SQLOperationArray _ => false
  end.

(** The adapter family of a composed handle. *)
Definition handle_core (h : BackendBatch) : Core :=
  match h with
  | CQLBatchOperation _ | CQLOperationArray _ => CQL
  | SQLBatchOperation _ | SQLOperationArray _ => SQL
  end.

(** The adapter family of a backend operation. *)
Definition operation_core (o : BackendOperation) : Core :=
  match o with
  | CQLSaveOperation _ | CQLGetOperation _ | CQLRemoveOperation _ => CQL
  | SQLSaveOperation _ | SQLGetOperation _ | SQLRemoveOperation _ => SQL
  end.

(** The argument object a backend operation was constructed from. *)
Definition operation_params (o : BackendOperation) : OperationParams :=
  match o with
  | CQLSaveOperation p | SQLSaveOperation p
  | CQLGetOperation p | SQLGetOperation p
  | CQLRemoveOperation p | SQLRemoveOperation p => p
  end.

Definition is_batch_execute_event (e : Event) : bool :=
  match e with EvExecuteBatch _ => true | _ => false end.

Definition is_execute_event (e : Event) : bool :=
  match e with EvExecute _ => true | _ => false end.

Definition is_createTable_event (e : Event) : bool :=
  match e with EvCreateTable _ => true | _ => false end.

Definition is_done_event (e : Event) : bool :=
  match e with EvDone _ => true | _ => false end.

(** A batch object whose [operation] field holds [o]. *)
Definition with_batch_operation (o : option BackendBatch)
    (this : BatchOperation) : BatchOperation :=
  {| batch_action := batch_action this;
     operationsArray := operationsArray this;
     isolation := isolation this;
     batch_operation := o |}.

End Operations.

(** ** A concrete backend, used to run the model on examples *)

Module Demo.

Fixpoint insert_sorted (x : nat) (l : list nat) : list nat :=
  match l with
  | [] => [x]
  | y :: l' => if Nat.leb x y then x :: y :: l' else y :: insert_sorted x l'
  end.

Definition sort_nat (l : list nat) : list nat := fold_right insert_sorted [] l.

(** Options are key/value lists, encoded objects are numbers, the rest of a
    query result is its count and the rest of an answer its status. *)
Definition shapes : Shapes :=
  {| Options := list (string * string);
     empty_options := [];
     EncObject := nat;
     QueryResultRest := nat;
     ServerAnswerRest := string;
     Orderer := list string |}.

Definition answer0 : @ServerAnswer shapes :=
  @Build_ServerAnswer shapes (Some 1) "success".

Definition result1 : @QueryResult shapes :=
  @Build_QueryResult shapes (Some [3; 1; 2]) (Some "backend-token") 3.

(** The envelope a get returns: answer 0 points to query result 1. *)
Definition answer_heap : @Heap shapes :=
  {| answers := {[ 0 := answer0 ]}; results := {[ 1 := result1 ]} |}.

(** An answer without [queryResults]. *)
Definition bare_heap : @Heap shapes :=
  {| answers := {[ 0 := @Build_ServerAnswer shapes None "success" ]};
     results := ∅ |}.

(** A backend that answers every single operation with [single_outcome]
    and every batch with [batch_outcome]. *)
Definition backend (single_outcome : @Heap shapes * (JsError + ref))
    (batch_outcome : JsError + ref) : @Backend shapes :=
  @Build_Backend shapes
    CQL
    (fun keys => keys)
    (fun _ l _ => sort_nat l)
    (fun _ _ => single_outcome)
    (fun _ h => (h, batch_outcome)).

Definition params : @OperationParams shapes :=
  @Build_OperationParams shapes myTypes.remove {[ "users" := "u1" ]}
    "users" None.

(** A built member of a batch. *)
Definition member (id : string) (a : myTypes.action) (can : bool)
    (tick : nat) (rej : option JsError) : @BaseOperation shapes :=
  @Build_BaseOperation shapes a ["users"] ["u1"] (Some "users") id
    (Some (CQLRemoveOperation params)) can
    {| settles_at := tick; rejection := rej |}.

Definition batch_of (ops : list (@BaseOperation shapes))
  : @BatchOperation shapes :=
  @Build_BatchOperation shapes myTypes.batch ops true None.

Definition empty_world : @World shapes :=
  @Build_World shapes (@Build_Heap shapes ∅ ∅) [].

Definition unconfigured : JsError :=
  {| message := "unconfigured table users"; code := Some 8704%Z |}.

Definition collection_missing : JsError :=
  {| message := "Collection users does not exist."; code := None |}.

Definition timeout_error : JsError :=
  {| message := "Operation timed out"; code := Some 4608%Z |}.

Definition creation_failed : JsError :=
  {| message := "Cannot create table"; code := None |}.

(** Members of the example batches. *)
Definition failing_a : @BaseOperation shapes :=
  member "a" myTypes.save true 0 (Some creation_failed).

Definition slow_b : @BaseOperation shapes :=
  member "b" myTypes.save true 5 None.

Definition creatable_a : @BaseOperation shapes :=
  member "a" myTypes.save true 3 None.

Definition plain_b : @BaseOperation shapes :=
  member "b" myTypes.remove false 0 None.

Definition creatable_c : @BaseOperation shapes :=
  member "c" myTypes.save true 1 None.

(** The handles composed from two and from three example members. *)
Definition handle2 : @BackendBatch shapes :=
  CQLBatchOperation [CQLRemoveOperation params; CQLRemoveOperation params].

Definition handle3 : @BackendBatch shapes :=
  CQLBatchOperation
    [CQLRemoveOperation params; CQLRemoveOperation params;
     CQLRemoveOperation params].

(** The batch of the three members, before and after composition. *)
Definition batch3 : @BatchOperation shapes :=
  batch_of [creatable_a; plain_b; creatable_c].

Definition built_batch3 : @BatchOperation shapes :=
  @Build_BatchOperation shapes myTypes.batch
    [creatable_a; plain_b; creatable_c] true (Some handle3).

(** Backends whose batches fail or succeed in a fixed way. *)
Definition batch_backend (outcome : JsError + ref) : @Backend shapes :=
  backend (answer_heap, inr 0) outcome.

(** A get operation on [users/u1/orders], not yet built. *)
Definition get_request : @InternalOperationDescription shapes :=
  @Build_InternalOperationDescription shapes myTypes.get
    ["users"; "orders"] ["u1"] "op-get" None None.

Definition instant : Settlement := {| settles_at := 0; rejection := None |}.

(** The backend whose gets return the envelope of [answer_heap]. *)
Definition get_backend : @Backend shapes :=
  backend (answer_heap, inr 0) (inr 0).

(** The backend whose gets return an envelope without [queryResults]. *)
Definition bare_backend : @Backend shapes :=
  backend (bare_heap, inr 0) (inr 0).

(** A get operation on the collection [users/u1/orders] whose table has
    been resolved, with the given continuation token and ordering. *)
Definition get_op (token : option string) (order : option (list string))
    (built : option (@BackendOperation shapes)) : @GetOperation shapes :=
  @Build_GetOperation shapes
    (@Build_BaseOperation shapes myTypes.get ["users"; "orders"] ["u1"]
       (Some "users_orders") "op-get" built false instant)
    None token order.

Definition get_handle : @BackendOperation shapes :=
  CQLGetOperation
    (@Build_OperationParams shapes myTypes.get {[ "users" := "u1" ]}
       "users_orders" (Some [])).

(** The same get operation, built. *)
Definition built_get (token : option string) (order : option (list string))
  : @GetOperation shapes :=
  get_op token order (Some get_handle).

(** A save operation whose table has not been resolved. *)
Definition save_op (payload : option string) : @SaveOperation shapes :=
  @Build_SaveOperation shapes
    (@Build_BaseOperation shapes myTypes.save ["users"] ["u1"] None "op-save"
       None false instant)
    payload None.

(** A remove operation whose table has not been resolved. *)
Definition remove_op : @RemoveOperation shapes :=
  @Build_RemoveOperation shapes
    (@Build_BaseOperation shapes myTypes.remove ["users"] ["u1"] None
       "op-remove" None false instant).

(** A remove operation whose table has been resolved. *)
Definition resolved_remove_op : @RemoveOperation shapes :=
  @Build_RemoveOperation shapes
    (@Build_BaseOperation shapes myTypes.remove ["users"; "orders"] ["u1"]
       (Some "users_orders") "op-remove" None false instant).

(** A get operation whose table has not been resolved. *)
Definition unresolved_get_op : @GetOperation shapes :=
  @Build_GetOperation shapes
    (@Build_BaseOperation shapes myTypes.get ["users"] ["u1"] None "op-get"
       None false instant)
    None (Some "T1") None.

(** A save request whose path has two collections and one document. *)
Definition odd_save_request : @InternalOperationDescription shapes :=
  @Build_InternalOperationDescription shapes myTypes.save
    ["users"; "orders"] ["u1"] "op-save" (Some "payload") None.

End Demo.

(** ** More example inputs *)

Module Samples.

(** A save request on [users/u1]. *)
Definition save_request : @InternalOperationDescription Demo.shapes :=
  @Build_InternalOperationDescription Demo.shapes myTypes.get
    ["users"] ["u1"] "op-save" (Some "enc") None.

(** The save operation the constructor makes of it. *)
Definition fresh_save : @SaveOperation Demo.shapes :=
  @Build_SaveOperation Demo.shapes
    (@Build_BaseOperation Demo.shapes myTypes.save ["users"] ["u1"] None
       "op-save" None false Demo.instant)
    (Some "enc") None.

(** A save operation on [object/u1] whose table has been resolved. *)
Definition resolved_save : @SaveOperation Demo.shapes :=
  @Build_SaveOperation Demo.shapes
    (@Build_BaseOperation Demo.shapes myTypes.save ["object"] ["u1"]
       (Some "object") "op-save" None false Demo.instant)
    (Some "enc") None.

(** A member that has not been built. *)
Definition unbuilt_member : @BaseOperation Demo.shapes :=
  @Build_BaseOperation Demo.shapes myTypes.save ["users"] ["u1"]
    (Some "users") "op-unbuilt" None true Demo.instant.

(** A member of the path [users/orders] that may not create its table and
    whose [createTable()] would be rejected. *)
Definition orders_member : @BaseOperation Demo.shapes :=
  @Build_BaseOperation Demo.shapes myTypes.save ["users"; "orders"]
    ["u1"; "o7"] (Some "users_orders") "op-orders"
    (Some (CQLRemoveOperation Demo.params)) false
    {| settles_at := 2; rejection := Some Demo.creation_failed |}.

(** A batch of two members that may not create their tables. *)
Definition plain_batch : @BatchOperation Demo.shapes :=
  Demo.batch_of [Demo.plain_b; Demo.plain_b].

Definition built_plain_batch : @BatchOperation Demo.shapes :=
  @Build_BatchOperation Demo.shapes myTypes.batch
    [Demo.plain_b; Demo.plain_b] true (Some Demo.handle2).

(** A backend whose single operations fail. *)
Definition failing_get_backend : @Backend Demo.shapes :=
  Demo.backend (Demo.bare_heap, inl Demo.timeout_error) (inr 0).

End Samples.

Example buildTableName_abc : buildTableName ["a"; "b"; "c"] = "a_b_c".
Proof. reflexivity. Qed.

Example last_collection_of_path :
  last_collection (get_base (Demo.get_op None None None)) = Some "orders".
Proof. reflexivity. Qed.

Example buildEntry_two :
  buildEntry ["users"; "orders"] ["u1"; "o7"] !! "orders" = Some "o7".
Proof. reflexivity. Qed.

(** ** Table names: proofs *)

#[local] Arguments String.append !_ _ / : simpl nomatch.

Lemma append_empty_r (s : string) : String.append s "" = s.
Proof. induction s as [|c s IH]; simpl; [reflexivity | now rewrite IH]. Qed.

Lemma buildTableName_loop_app (cs res : list string) :
  buildTableName_loop cs res = res ++ flat_map (fun c => [c; "_"]) cs.
Proof.
  revert res. induction cs as [|c cs IH]; intros res; simpl.
  - now rewrite app_nil_r.
  - rewrite IH, <- app_assoc. reflexivity.
Qed.

Lemma join_slice_pairs (cs : list string) :
  join_empty (slice_0_minus1 (flat_map (fun c => [c; "_"]) cs))
  = String.concat "_" cs.
Proof.
  unfold slice_0_minus1.
  induction cs as [|c [|c' cs] IH]; [reflexivity | |].
  - simpl. apply append_empty_r.
  - change (flat_map (fun c => [c; "_"]) (c :: c' :: cs))
      with (c :: "_" :: flat_map (fun c => [c; "_"]) (c' :: cs)).
    change (String.concat "_" (c :: c' :: cs))
      with (String.append c (String.append "_" (String.concat "_" (c' :: cs)))).
    rewrite <- IH.
    remember (flat_map (fun c => [c; "_"]) (c' :: cs)) as X eqn:EX.
    destruct X as [|x X]; [discriminate EX|].
    reflexivity.
Qed.

Lemma buildTableName_concat (cs : list string) :
  buildTableName cs = String.concat "_" cs.
Proof.
  unfold buildTableName. rewrite buildTableName_loop_app. simpl.
  apply join_slice_pairs.
Qed.

Lemma no_separator_head (c : ascii) (s : string) :
  no_separator (String c s) = true -> c <> "_"%char /\ no_separator s = true.
Proof.
  simpl. intros Hc. apply andb_true_iff in Hc as [Hc Hs]. split; [|exact Hs].
  intros ->. discriminate Hc.
Qed.

Lemma append_separator_inj (s1 s2 t1 t2 : string) :
  no_separator s1 = true -> no_separator s2 = true ->
  String.append s1 (String "_" t1) = String.append s2 (String "_" t2) ->
  s1 = s2 /\ t1 = t2.
Proof.
  revert s2. induction s1 as [|a s1 IH]; intros [|b s2] H1 H2 E; simpl in E.
  - injection E as ->. split; reflexivity.
  - injection E as Eb _. apply no_separator_head in H2 as [Hb _]. congruence.
  - injection E as Ea _. apply no_separator_head in H1 as [Ha _]. congruence.
  - injection E as -> E. apply no_separator_head in H1 as [_ H1].
    apply no_separator_head in H2 as [_ H2].
    destruct (IH s2 H1 H2 E) as [-> ->]. split; reflexivity.
Qed.

Lemma no_separator_not_split (s s' t : string) :
  no_separator s = true -> s <> String.append s' (String "_" t).
Proof.
  revert s'. induction s as [|a s IH]; intros [|b s'] Hs E; simpl in E;
    try discriminate E.
  - injection E as Ea _. apply no_separator_head in Hs as [Ha _]. congruence.
  - injection E as _ E. apply no_separator_head in Hs as [_ Hs].
    exact (IH s' Hs E).
Qed.

Lemma concat_separator_inj (p q : list string) :
  length p = length q ->
  forallb no_separator p = true -> forallb no_separator q = true ->
  String.concat "_" p = String.concat "_" q -> p = q.
Proof.
  revert q. induction p as [|c p IH]; intros [|d q] Hlen Hp Hq E;
    try discriminate Hlen; [reflexivity|].
  simpl in Hp, Hq. apply andb_true_iff in Hp as [Hc Hp].
  apply andb_true_iff in Hq as [Hd Hq].
  injection Hlen as Hlen.
  destruct p as [|c' p], q as [|d' q]; try discriminate Hlen.
  - simpl in E. now subst.
  - change (String.append c (String "_" (String.concat "_" (c' :: p)))
            = String.append d (String "_" (String.concat "_" (d' :: q)))) in E.
    destruct (append_separator_inj _ _ _ _ Hc Hd E) as [-> E'].
    f_equal. apply IH; auto.
Qed.

(** C4 (as stated, refuted): two distinct paths of the same length, with
    pairwise distinct elements and no element in common, are given the
    same table name, so the naming is not injective on such paths. *)
Lemma buildTableName_not_injective :
  length ["a_b"; "c"] = length ["a"; "b_c"]
  /\ NoDup ["a_b"; "c"; "a"; "b_c"]
  /\ ["a_b"; "c"] <> ["a"; "b_c"]
  /\ buildTableName ["a_b"; "c"] = buildTableName ["a"; "b_c"].
Proof.
  split; [reflexivity|]. split; [|split; [discriminate | reflexivity]].
  repeat constructor; rewrite ?list_elem_of_In; simpl; intuition discriminate.
Qed.

(** C4 (amended): for every non-empty collection path [p],
    [buildTableName] returns the elements of [p] joined with a single "_"
    between consecutive elements, without leading or trailing separator;
    and the naming is injective among paths of the same length whose
    elements do not contain the character "_". *)
Theorem buildTableName_joined_injective (p : list string) :
  p <> [] ->
  buildTableName p = joined_with_underscore p
  /\ (forall q : list string,
        length q = length p ->
        forallb no_separator p = true ->
        forallb no_separator q = true ->
        buildTableName q = buildTableName p -> q = p).
Proof.
  intros _. split.
  - apply buildTableName_concat.
  - intros q Hlen Hp Hq E. rewrite !buildTableName_concat in E.
    now apply concat_separator_inj.
Qed.

Lemma buildTableName_joined_injective_witness :
  ["a"; "b"; "c"] <> []
  /\ buildTableName ["a"; "b"; "c"] = "a_b_c"
  /\ (buildTableName ["a"; "b"; "c"] = buildTableName ["a"; "b"; "c"] ->
      ["a"; "b"; "c"] = ["a"; "b"; "c"]).
Proof.
  assert (Hne : ["a"; "b"; "c"] <> []) by discriminate.
  destruct (buildTableName_joined_injective ["a"; "b"; "c"] Hne) as [Hj Hinj].
  split; [exact Hne|]. split; [exact Hj|].
  intros E. apply Hinj; [reflexivity | reflexivity | reflexivity | exact E].
Defined.

(** ** Entries: proofs *)

Lemma set_property_ordinary (k v : string) (entry : gmap string string) :
  k <> "__proto__" -> set_property k v entry = <[k := v]> entry.
Proof.
  intros Hk. unfold set_property.
  destruct (String.eqb_spec k "__proto__"); [contradiction | reflexivity].
Qed.

Lemma set_property_other (k v k' : string) (entry : gmap string string) :
  k <> k' -> set_property k v entry !! k' = entry !! k'.
Proof.
  intros Hk. unfold set_property.
  destruct (String.eqb k "__proto__"); [reflexivity|].
  now apply lookup_insert_ne.
Qed.

Section EntryProofs.
Variable cs : list string.

Lemma buildEntry_loop_other (ds : list string) :
  forall (i : nat) (entry : gmap string string) (k : string),
    (forall j, j < length ds -> key_at cs (i + j) <> k) ->
    buildEntry_loop cs i ds entry !! k = entry !! k.
Proof.
  induction ds as [|d ds IH]; intros i entry k Hk; simpl; [reflexivity|].
  rewrite IH.
  - apply set_property_other. specialize (Hk 0). rewrite Nat.add_0_r in Hk.
    apply Hk. simpl. lia.
  - intros j Hj. replace (S i + j) with (i + S j) by lia.
    apply Hk. simpl. lia.
Qed.

Lemma key_at_lookup (i : nat) (c : string) :
  cs !! i = Some c -> key_at cs i = c.
Proof. unfold key_at. now intros ->. Qed.

Lemma key_at_elem (i : nat) : i < length cs -> key_at cs i ∈ cs.
Proof.
  intros Hi. destruct (lookup_lt_is_Some_2 cs i Hi) as [a Ha].
  rewrite (key_at_lookup _ _ Ha). apply list_elem_of_lookup. eauto.
Qed.

Lemma key_at_inj (i j : nat) :
  NoDup cs -> i < length cs -> j < length cs ->
  key_at cs i = key_at cs j -> i = j.
Proof.
  intros Hnd Hi Hj E.
  destruct (lookup_lt_is_Some_2 cs i Hi) as [a Ha].
  destruct (lookup_lt_is_Some_2 cs j Hj) as [b Hb].
  rewrite (key_at_lookup _ _ Ha), (key_at_lookup _ _ Hb) in E. subst b.
  exact (NoDup_lookup cs i j a Hnd Ha Hb).
Qed.

Hypothesis distinct : NoDup cs.
Hypothesis ordinary : "__proto__" ∉ cs.

Lemma key_at_ordinary (i : nat) : i < length cs -> key_at cs i <> "__proto__".
Proof. intros Hi E. apply ordinary. rewrite <- E. now apply key_at_elem. Qed.

Lemma buildEntry_loop_lookup (ds : list string) :
  forall (i : nat) (entry : gmap string string) (j : nat) (c d : string),
    i + length ds <= length cs ->
    cs !! (i + j) = Some c -> ds !! j = Some d ->
    buildEntry_loop cs i ds entry !! c = Some d.
Proof.
  induction ds as [|d0 ds IH]; intros i entry j c d Hlen Hc Hd.
  - discriminate Hd.
  - simpl in *. destruct j as [|j]; simpl in Hd.
    + injection Hd as ->. rewrite Nat.add_0_r in Hc.
      rewrite buildEntry_loop_other.
      * rewrite set_property_ordinary by (apply key_at_ordinary; lia).
        rewrite (key_at_lookup _ _ Hc). apply lookup_insert_eq.
      * intros j Hj E. rewrite <- (key_at_lookup _ _ Hc) in E.
        apply key_at_inj in E; [lia | exact distinct | lia | lia].
    + apply (IH (S i) _ j); [lia | | exact Hd].
      now replace (S i + j) with (i + S j) by lia.
Qed.

Lemma buildEntry_loop_size (ds : list string) :
  forall (i : nat) (entry : gmap string string),
    i + length ds <= length cs ->
    (forall j, j < length ds -> entry !! key_at cs (i + j) = None) ->
    size (buildEntry_loop cs i ds entry) = size entry + length ds.
Proof.
  induction ds as [|d ds IH]; intros i entry Hlen Hfresh; simpl.
  - lia.
  - simpl in Hlen.
    rewrite set_property_ordinary by (apply key_at_ordinary; lia).
    rewrite IH; [| lia |].
    + rewrite map_size_insert_None; [lia|].
      specialize (Hfresh 0). rewrite Nat.add_0_r in Hfresh.
      apply Hfresh. simpl. lia.
    + intros j Hj. rewrite lookup_insert_ne.
      * replace (S i + j) with (i + S j) by lia. apply Hfresh. simpl. lia.
      * intros E. apply key_at_inj in E; [lia | exact distinct | lia | lia].
Qed.

Lemma buildEntry_size (ds : list string) :
  length ds <= length cs -> size (buildEntry cs ds) = length ds.
Proof.
  intros Hlen. unfold buildEntry.
  rewrite buildEntry_loop_size; [| exact Hlen |].
  - now rewrite map_size_empty.
  - intros j _. apply lookup_empty.
Qed.

Lemma buildEntry_lookup (ds : list string) (i : nat) (c d : string) :
  length ds <= length cs ->
  cs !! i = Some c -> ds !! i = Some d ->
  buildEntry cs ds !! c = Some d.
Proof.
  intros Hlen Hc Hd. unfold buildEntry.
  now apply (buildEntry_loop_lookup ds 0 ∅ i).
Qed.

Lemma buildEntry_not_key (ds : list string) (k : string) :
  length ds <= length cs -> k ∉ cs -> buildEntry cs ds !! k = None.
Proof.
  intros Hlen Hk. unfold buildEntry. rewrite buildEntry_loop_other.
  - apply lookup_empty.
  - intros j Hj E. apply Hk. rewrite <- E. apply key_at_elem. simpl. lia.
Qed.

End EntryProofs.

(** C3 (as stated, refuted): with a repeated collection name, two arrays
    of equal length 2 give an entry with one key, which holds the second
    document and not the first; with the collection name "__proto__", two
    arrays of equal length 1 give an empty entry; and with arrays of
    unequal lengths building a get operation succeeds, its keys being the
    entry of the documents supplied. *)
Lemma buildEntry_repeated_or_short_paths :
  (length ["a"; "a"] = length ["1"; "2"]
   /\ size (buildEntry ["a"; "a"] ["1"; "2"]) = 1
   /\ buildEntry ["a"; "a"] ["1"; "2"] !! "a" = Some "2")
  /\ (length ["__proto__"] = length ["1"]
      /\ size (buildEntry ["__proto__"] ["1"]) = 0)
  /\ (length ["users"; "orders"] <> length ["u1"]
      /\ buildEntry ["users"; "orders"] ["u1"] = {[ "users" := "u1" ]}
      /\ snd (@GetOperation_buildOperation Demo.shapes Demo.get_backend
                (Demo.get_op None None None)) = inr tt).
Proof.
  split; [split; [reflexivity | split; reflexivity]|].
  split; [split; reflexivity|].
  split; [discriminate|]. split; reflexivity.
Qed.

(** C3 (amended): for all [collections] and [documents] arrays where the
    collection names are pairwise distinct, none of them is "__proto__",
    and [documents] is not longer than [collections], [buildEntry]
    produces a mapping with exactly [documents.length] entries satisfying
    [entry[collections[i]] == documents[i]] for every [i] below
    [documents.length]; for Save, when no collection is named "object",
    the mapping has one additional "object" entry holding the payload.
    Arrays of unequal lengths are rejected only for Save, by the
    constructor of [SaveOperation], which fails with the error "Invalid
    path length parity for a save operation"; building a get or a remove
    operation whose table is resolved succeeds whatever the lengths. *)
Theorem buildEntry_distinct_names `{Backend} :
  (forall (cs ds : list string) (payload : string),
     NoDup cs -> "__proto__" ∉ cs -> length ds <= length cs ->
     (size (buildEntry cs ds) = length ds
      /\ forall (i : nat) (c d : string),
           cs !! i = Some c -> ds !! i = Some d ->
           buildEntry cs ds !! c = Some d)
     /\ ("object" ∉ cs ->
         size (SaveOperation_buildEntry cs ds payload) = S (length ds)
         /\ SaveOperation_buildEntry cs ds payload !! "object" = Some payload
         /\ forall (i : nat) (c d : string),
              cs !! i = Some c -> ds !! i = Some d ->
              SaveOperation_buildEntry cs ds payload !! c = Some d))
  /\ (forall (request : InternalOperationDescription) (impl : Settlement),
        length (req_documents request) <> length (req_collections request) ->
        SaveOperation_new request impl
        = inl (new_Error "Invalid path length parity for a save operation"))
  /\ (forall (g : GetOperation) (r : RemoveOperation),
        table (get_base g) <> None -> table (remove_base r) <> None ->
        snd (GetOperation_buildOperation g) = inr tt
        /\ snd (RemoveOperation_buildOperation r) = inr tt).
Proof.
  split; [|split].
  - intros cs ds payload Hnd Hproto Hlen. split; [split|].
    + now apply buildEntry_size.
    + intros i c d Hc Hd. now apply (buildEntry_lookup cs Hnd Hproto ds i).
    + intros Hobj. unfold SaveOperation_buildEntry.
      rewrite set_property_ordinary by discriminate. split; [|split].
      * rewrite map_size_insert_None.
        -- now rewrite buildEntry_size.
        -- now apply buildEntry_not_key.
      * apply lookup_insert_eq.
      * intros i c d Hc Hd. rewrite lookup_insert_ne.
        -- now apply (buildEntry_lookup cs Hnd Hproto ds i).
        -- intros <-. apply Hobj. apply list_elem_of_lookup. eauto.
  - intros request impl Hne. unfold SaveOperation_new. simpl.
    destruct (Nat.eqb_spec (length (req_documents request))
                (length (req_collections request))) as [E|_].
    + contradiction.
    + reflexivity.
  - intros g r Hg Hr.
    unfold GetOperation_buildOperation, RemoveOperation_buildOperation.
    destruct (table (get_base g)); [|contradiction].
    destruct (table (remove_base r)); [|contradiction].
    split; reflexivity.
Qed.

Lemma buildEntry_distinct_names_witness :
  (size (buildEntry ["users"; "orders"] ["u1"; "o7"]) = 2
   /\ buildEntry ["users"; "orders"] ["u1"; "o7"] !! "orders" = Some "o7")
  /\ (size (SaveOperation_buildEntry ["users"; "orders"] ["u1"; "o7"] "enc") = 3
      /\ SaveOperation_buildEntry ["users"; "orders"] ["u1"; "o7"] "enc"
           !! "users" = Some "u1")
  /\ @SaveOperation_new Demo.shapes Demo.odd_save_request Demo.instant
     = inl (new_Error "Invalid path length parity for a save operation")
  /\ snd (@GetOperation_buildOperation _ Demo.get_backend
            (Demo.get_op None None None)) = inr tt.
Proof.
  destruct (@buildEntry_distinct_names Demo.shapes Demo.get_backend)
    as [Hentry [Hsave Hget]].
  assert (Hnd : NoDup ["users"; "orders"]).
  { repeat constructor; rewrite ?list_elem_of_In; simpl; intuition discriminate. }
  assert (Hproto : "__proto__" ∉ ["users"; "orders"]).
  { rewrite list_elem_of_In. simpl. intuition discriminate. }
  assert (Hlen : length ["u1"; "o7"] <= length ["users"; "orders"])
    by (simpl; lia).
  destruct (Hentry ["users"; "orders"] ["u1"; "o7"] "enc" Hnd Hproto Hlen)
    as [[Hsize Hlook] Hobj].
  split; [split; [exact Hsize | apply (Hlook 1); reflexivity]|].
  split.
  - destruct Hobj as [Hs [_ Hl]].
    + rewrite list_elem_of_In. simpl. intuition discriminate.
    + split; [exact Hs | apply (Hl 0); reflexivity].
  - split; [apply Hsave; simpl; lia|].
    apply (Hget (Demo.get_op None None None) Demo.resolved_remove_op);
      discriminate.
Defined.

(** ** Batch composition *)

Section CompositionProofs.
Context `{Shapes}.

Lemma check_members_rejects (batch : list BaseOperation) :
  Exists (fun op => is_batch_or_get (action op) = true) batch ->
  check_members batch = inl composition_error.
Proof.
  induction batch as [|op batch IH]; intros Hex.
  - inversion Hex.
  - simpl. destruct (is_batch_or_get (action op)) eqn:E; [reflexivity|].
    apply IH. inversion Hex; subst; [congruence | assumption].
Qed.

Lemma check_members_accepts (batch : list BaseOperation) :
  Forall (fun op => is_batch_or_get (action op) = false) batch ->
  check_members batch = inr tt.
Proof.
  induction 1 as [|op batch Hop _ IH]; simpl; [reflexivity|].
  now rewrite Hop.
Qed.

Lemma is_batch_or_get_true (a : myTypes.action) :
  is_batch_or_get a = true <-> a = myTypes.get \/ a = myTypes.batch.
Proof. destruct a; simpl; intuition congruence. Qed.

Lemma is_batch_or_get_false (a : myTypes.action) :
  is_batch_or_get a = false <-> a = myTypes.save \/ a = myTypes.remove.
Proof. destruct a; simpl; intuition congruence. Qed.

End CompositionProofs.

(** C5: constructing a [BatchOperation] over a list that contains a member
    whose action is get or batch fails with the composition error, for
    either isolation mode; [push] of such a member fails with the same error
    and leaves the batch as it was; a list whose members are all save or
    remove operations is accepted, and so is the [push] of a save or remove
    member, which is appended to the batch. *)
Theorem batch_composition `{Shapes} :
  (forall (batch : list BaseOperation) (isolation : bool) (op : BaseOperation),
     op ∈ batch ->
     action op = myTypes.get \/ action op = myTypes.batch ->
     1 <= length batch
     /\ BatchOperation_new batch isolation
        = inl (new_Error "Batch cannot contain batch or get operations"))
  /\ (forall (this : BatchOperation) (op : BaseOperation),
        action op = myTypes.get \/ action op = myTypes.batch ->
        BatchOperation_push this op
        = (this, inl (new_Error "Batch cannot contain batch or get operations")))
  /\ (forall (batch : list BaseOperation) (isolation : bool),
        (forall op, op ∈ batch ->
                    action op = myTypes.save \/ action op = myTypes.remove) ->
        exists b : BatchOperation,
          BatchOperation_new batch isolation = inr b
          /\ operationsArray b = batch)
  /\ (forall (this : BatchOperation) (op : BaseOperation),
        action op = myTypes.save \/ action op = myTypes.remove ->
        exists b : BatchOperation,
          BatchOperation_push this op = (b, inr tt)
          /\ operationsArray b = operationsArray this ++ [op]).
Proof.
  split; [|split; [|split]].
  - intros batch isolation op Hin Hop. split.
    + destruct batch; [inversion Hin | simpl; lia].
    + unfold BatchOperation_new. rewrite check_members_rejects; [reflexivity|].
      apply Exists_exists. exists op. split.
      * exact Hin.
      * now apply is_batch_or_get_true.
  - intros this op Hop. unfold BatchOperation_push.
    apply is_batch_or_get_true in Hop. now rewrite Hop.
  - intros batch isolation Hall. unfold BatchOperation_new.
    rewrite check_members_accepts.
    + eexists. split; reflexivity.
    + apply List.Forall_forall. intros op Hin. apply is_batch_or_get_false.
      apply Hall. apply list_elem_of_In. exact Hin.
  - intros this op Hop. unfold BatchOperation_push.
    apply is_batch_or_get_false in Hop. rewrite Hop.
    eexists. split; reflexivity.
Qed.

Lemma batch_composition_witness :
  BatchOperation_new
    [Demo.member "a" myTypes.save false 0 None;
     Demo.member "b" myTypes.get false 0 None] false
  = inl (new_Error "Batch cannot contain batch or get operations")
  /\ BatchOperation_push (Demo.batch_of [])
       (Demo.member "c" myTypes.batch false 0 None)
     = (Demo.batch_of [],
        inl (new_Error "Batch cannot contain batch or get operations"))
  /\ (exists b,
        BatchOperation_new
          [Demo.member "a" myTypes.save false 0 None;
           Demo.member "d" myTypes.remove false 0 None] true = inr b)
  /\ (exists b,
        BatchOperation_push (Demo.batch_of [])
          (Demo.member "a" myTypes.save false 0 None) = (b, inr tt)).
Proof.
  destruct (@batch_composition Demo.shapes) as [Hnew [Hpush [Hok Hpush_ok]]].
  split; [|split; [|split]].
  - apply (Hnew _ false (Demo.member "b" myTypes.get false 0 None)).
    + apply list_elem_of_In. simpl. right. left. reflexivity.
    + left. reflexivity.
  - apply Hpush. right. reflexivity.
  - destruct (Hok [Demo.member "a" myTypes.save false 0 None;
                   Demo.member "d" myTypes.remove false 0 None] true)
      as [b [Hb _]].
    + intros op Hin. apply list_elem_of_In in Hin. simpl in Hin.
      destruct Hin as [<- | [<- | []]]; [left | right]; reflexivity.
    + exists b. exact Hb.
  - destruct (Hpush_ok (Demo.batch_of [])
                (Demo.member "a" myTypes.save false 0 None)) as [b [Hb _]].
    + left. reflexivity.
    + exists b. exact Hb.
Defined.

(** ** Building and executing single operations *)

(** C9: for every save, get and remove operation, [buildOperation()] called
    while [table] is null throws an error, with message "Undefined table",
    or "Operation entry undefined" for a save whose payload is undefined,
    and leaves the operation object as it was, so that its backend
    operation is still null; and [execute()] called while the backend
    operation is null throws the error "unable to execute CQL operation,
    query not built" and leaves the world as it was: no backend is
    contacted. *)
Theorem unbuilt_operations_fail `{Backend} :
  (forall this : SaveOperation,
     table (save_base this) = None ->
     SaveOperation_buildOperation this
     = (this,
        inl (new_Error
               match object this with
               | None => "Operation entry undefined"
               | Some _ => "Undefined table"
               end)))
  /\ (forall this : GetOperation,
        table (get_base this) = None ->
        GetOperation_buildOperation this
        = (this, inl (new_Error "Undefined table")))
  /\ (forall this : RemoveOperation,
        table (remove_base this) = None ->
        RemoveOperation_buildOperation this
        = (this, inl (new_Error "Undefined table")))
  /\ (forall (this : SaveOperation) (w : World),
        operation (save_base this) = None ->
        SaveOperation_execute this w
        = (w, inl (new_Error
                     "unable to execute CQL operation, query not built")))
  /\ (forall (this : GetOperation) (w : World),
        operation (get_base this) = None ->
        GetOperation_execute this w
        = (w, inl (new_Error
                     "unable to execute CQL operation, query not built")))
  /\ (forall (this : RemoveOperation) (w : World),
        operation (remove_base this) = None ->
        RemoveOperation_execute this w
        = (w, inl (new_Error
                     "unable to execute CQL operation, query not built"))).
Proof.
  repeat split.
  - intros this Ht. unfold SaveOperation_buildOperation.
    destruct (object this); [now rewrite Ht | reflexivity].
  - intros this Ht. unfold GetOperation_buildOperation. now rewrite Ht.
  - intros this Ht. unfold RemoveOperation_buildOperation. now rewrite Ht.
  - intros this w Ho. unfold SaveOperation_execute, BaseOperation_execute.
    now rewrite Ho.
  - intros this w Ho. unfold GetOperation_execute, bind, BaseOperation_execute.
    now rewrite Ho.
  - intros this w Ho. unfold RemoveOperation_execute, BaseOperation_execute.
    now rewrite Ho.
Qed.

Lemma unbuilt_operations_fail_witness :
  @SaveOperation_buildOperation _ Demo.get_backend (Demo.save_op (Some "enc"))
  = (Demo.save_op (Some "enc"), inl (new_Error "Undefined table"))
  /\ @SaveOperation_buildOperation _ Demo.get_backend (Demo.save_op None)
     = (Demo.save_op None, inl (new_Error "Operation entry undefined"))
  /\ @GetOperation_buildOperation _ Demo.get_backend Demo.unresolved_get_op
     = (Demo.unresolved_get_op, inl (new_Error "Undefined table"))
  /\ @RemoveOperation_buildOperation _ Demo.get_backend Demo.remove_op
     = (Demo.remove_op, inl (new_Error "Undefined table"))
  /\ @SaveOperation_execute _ Demo.get_backend (Demo.save_op (Some "enc")) Demo.empty_world
     = (Demo.empty_world,
        inl (new_Error "unable to execute CQL operation, query not built"))
  /\ @GetOperation_execute _ Demo.get_backend Demo.unresolved_get_op Demo.empty_world
     = (Demo.empty_world,
        inl (new_Error "unable to execute CQL operation, query not built"))
  /\ @RemoveOperation_execute _ Demo.get_backend Demo.remove_op Demo.empty_world
     = (Demo.empty_world,
        inl (new_Error "unable to execute CQL operation, query not built")).
Proof.
  destruct (@unbuilt_operations_fail _ Demo.get_backend) as [Hs [Hg [Hr [Hxs [Hxg Hxr]]]]].
  split; [exact (Hs (Demo.save_op (Some "enc")) eq_refl)|].
  split; [exact (Hs (Demo.save_op None) eq_refl)|].
  split; [exact (Hg Demo.unresolved_get_op eq_refl)|].
  split; [exact (Hr Demo.remove_op eq_refl)|].
  split; [exact (Hxs (Demo.save_op (Some "enc")) Demo.empty_world eq_refl)|].
  split; [exact (Hxg Demo.unresolved_get_op Demo.empty_world eq_refl)|].
  exact (Hxr Demo.remove_op Demo.empty_world eq_refl).
Defined.

(** ** Executing a get operation *)

Section GetProofs.
Context `{Backend}.

(** A get whose backend call succeeds returns the backend's reference,
    after the two updates of the heap. *)
Lemma GetOperation_execute_run (this : GetOperation) (w : World)
    (o : BackendOperation) (h1 : Heap) (res : ref) :
  operation (get_base this) = Some o ->
  backend_execute o (heap w) = (h1, inr res) ->
  GetOperation_execute this w
  = ({| heap := order_results this res (stamp_pageToken this res h1);
        trace := trace w ++ [EvExecute o] |}, inr res).
Proof.
  intros Ho Hb.
  unfold GetOperation_execute, bind, BaseOperation_execute, run_operation.
  rewrite Ho, Hb. reflexivity.
Qed.

Lemma stamp_pageToken_answers (this : GetOperation) (res : ref) (h : Heap) :
  answers (stamp_pageToken this res h) = answers h.
Proof.
  unfold stamp_pageToken.
  destruct (constResToken this), (read_queryResults h res); reflexivity.
Qed.

Lemma order_results_answers (this : GetOperation) (res : ref) (h : Heap) :
  answers (order_results this res h) = answers h.
Proof.
  unfold order_results.
  destruct (orderer this), (read_queryResults h res) as [q|]; try reflexivity.
  destruct (read_allResultsEnc h q); reflexivity.
Qed.

Lemma read_queryResults_answers (h h' : Heap) (res : ref) :
  answers h' = answers h -> read_queryResults h' res = read_queryResults h res.
Proof. unfold read_queryResults. now intros ->. Qed.

Lemma stamp_pageToken_none (this : GetOperation) (res : ref) (h : Heap) :
  read_queryResults h res = None -> stamp_pageToken this res h = h.
Proof.
  intros Hq. unfold stamp_pageToken. rewrite Hq.
  destruct (constResToken this); reflexivity.
Qed.

Lemma order_results_none (this : GetOperation) (res : ref) (h : Heap) :
  read_queryResults h res = None -> order_results this res h = h.
Proof.
  intros Hq. unfold order_results. rewrite Hq.
  destruct (orderer this); reflexivity.
Qed.

Lemma post_process_lookup (this : GetOperation) (res q : ref) (h : Heap)
    (qr : QueryResult) :
  read_queryResults h res = Some q ->
  results h !! q = Some qr ->
  results (order_results this res (stamp_pageToken this res h)) !! q
  = Some (processed this qr).
Proof.
  intros Hq Hqr.
  assert (Hq2 : read_queryResults (stamp_pageToken this res h) res = Some q).
  { rewrite (read_queryResults_answers h); [exact Hq|].
    apply stamp_pageToken_answers. }
  assert (Hs : results (stamp_pageToken this res h) !! q
               = Some {| allResultsEnc := allResultsEnc qr;
                         pageToken := match constResToken this with
                                      | Some t => Some t
                                      | None => pageToken qr
                                      end;
                         qr_rest := qr_rest qr |}).
  { unfold stamp_pageToken. rewrite Hq.
    destruct (constResToken this) as [t|]; simpl.
    - rewrite lookup_alter_eq, Hqr. reflexivity.
    - rewrite Hqr. now destruct qr. }
  unfold order_results, processed. rewrite Hq2.
  unfold read_allResultsEnc. rewrite Hs. simpl.
  destruct (orderer this) as [o|]; [|exact Hs].
  destruct (allResultsEnc qr) as [l|]; [|exact Hs].
  simpl. rewrite lookup_alter_eq, Hs. reflexivity.
Qed.

Lemma post_process_other (this : GetOperation) (res q' : ref) (h : Heap) :
  read_queryResults h res <> Some q' ->
  results (order_results this res (stamp_pageToken this res h)) !! q'
  = results h !! q'.
Proof.
  intros Hne.
  assert (Hstamp : results (stamp_pageToken this res h) !! q' = results h !! q').
  { unfold stamp_pageToken.
    destruct (constResToken this) as [t|]; [|reflexivity].
    destruct (read_queryResults h res) as [q|]; [|reflexivity].
    simpl. apply lookup_alter_ne. congruence. }
  rewrite <- Hstamp. unfold order_results.
  rewrite (read_queryResults_answers h); [|apply stamp_pageToken_answers].
  destruct (orderer this) as [o|]; [|reflexivity].
  destruct (read_queryResults h res) as [q|]; [|reflexivity].
  destruct (read_allResultsEnc _ q); [|reflexivity].
  simpl. apply lookup_alter_ne. congruence.
Qed.

Lemma post_process_rest (this : GetOperation) (res q' : ref) (h : Heap) :
  qr_rest <$> results (order_results this res (stamp_pageToken this res h)) !! q'
  = qr_rest <$> results h !! q'.
Proof.
  destruct (decide (read_queryResults h res = Some q')) as [Hq|Hq].
  - destruct (results h !! q') as [qr|] eqn:Hqr.
    + now rewrite (post_process_lookup this res q' h qr Hq Hqr).
    + assert (Hs : results (stamp_pageToken this res h) !! q' = None).
      { unfold stamp_pageToken. rewrite Hq.
        destruct (constResToken this); simpl; [|exact Hqr].
        now rewrite lookup_alter_eq, Hqr. }
      unfold order_results.
      rewrite (read_queryResults_answers h); [|apply stamp_pageToken_answers].
      rewrite Hq. unfold read_allResultsEnc. rewrite Hs.
      destruct (orderer this); now rewrite Hs.
  - now rewrite post_process_other.
Qed.

End GetProofs.

(** C7: for a get operation constructed with continuation token [t], when
    the backend call succeeds and its result contains a [queryResults]
    object, [execute] returns the backend's envelope and
    [queryResults.pageToken] is [t], whatever token the backend had set;
    when no continuation token was supplied, the backend's [pageToken] is
    left as it was. *)
Theorem continuation_token_stamped `{Backend} (this : GetOperation)
    (w : World) (o : BackendOperation) (h1 : Heap) (res q : ref)
    (sa : ServerAnswer) (qr : QueryResult) :
  operation (get_base this) = Some o ->
  backend_execute o (heap w) = (h1, inr res) ->
  answers h1 !! res = Some sa ->
  queryResults sa = Some q ->
  results h1 !! q = Some qr ->
  exists (w' : World) (qr' : QueryResult),
    GetOperation_execute this w = (w', inr res)
    /\ answers (heap w') !! res = Some sa
    /\ results (heap w') !! q = Some qr'
    /\ (forall t, constResToken this = Some t -> pageToken qr' = Some t)
    /\ (constResToken this = None -> pageToken qr' = pageToken qr).
Proof.
  intros Ho Hb Hsa Hq Hqr.
  assert (Hread : read_queryResults h1 res = Some q).
  { unfold read_queryResults. now rewrite Hsa. }
  eexists. exists (processed this qr).
  split; [exact (GetOperation_execute_run this w o h1 res Ho Hb)|].
  cbn [heap]. split; [|split; [|split]].
  - now rewrite order_results_answers, stamp_pageToken_answers.
  - now apply post_process_lookup.
  - intros t Ht. simpl. now rewrite Ht.
  - intros Ht. simpl. now rewrite Ht.
Qed.

(** C8: for a get operation constructed with an ordering spec, when the
    backend call succeeds and its result carries a raw result list
    [queryResults.allResultsEnc] (empty or not), [execute] replaces that
    list with the list the orderer returns for it and for the last
    collection name of the path as sort field, which has the same elements
    reordered whenever the orderer permutes its input; when no ordering
    spec was supplied, the list is left as the backend produced it. *)
Theorem results_ordered `{Backend} (this : GetOperation)
    (w : World) (o : BackendOperation) (h1 : Heap) (res q : ref)
    (sa : ServerAnswer) (qr : QueryResult) :
  operation (get_base this) = Some o ->
  backend_execute o (heap w) = (h1, inr res) ->
  answers h1 !! res = Some sa ->
  queryResults sa = Some q ->
  results h1 !! q = Some qr ->
  exists (w' : World) (qr' : QueryResult),
    GetOperation_execute this w = (w', inr res)
    /\ answers (heap w') !! res = Some sa
    /\ results (heap w') !! q = Some qr'
    /\ (forall (ord : Orderer) (l : list EncObject),
          orderer this = Some ord -> allResultsEnc qr = Some l ->
          allResultsEnc qr'
          = Some (Orderer_order ord l (last (collections (get_base this))))
          /\ ((forall l0 f, Permutation (Orderer_order ord l0 f) l0) ->
              exists l', allResultsEnc qr' = Some l' /\ Permutation l' l))
    /\ (orderer this = None -> allResultsEnc qr' = allResultsEnc qr).
Proof.
  intros Ho Hb Hsa Hq Hqr.
  assert (Hread : read_queryResults h1 res = Some q).
  { unfold read_queryResults. now rewrite Hsa. }
  eexists. exists (processed this qr).
  split; [exact (GetOperation_execute_run this w o h1 res Ho Hb)|].
  cbn [heap]. split; [|split; [|split]].
  - now rewrite order_results_answers, stamp_pageToken_answers.
  - now apply post_process_lookup.
  - intros ord l Hord Hl. simpl. rewrite Hord, Hl. split; [reflexivity|].
    intros Hperm. eexists. split; [reflexivity | apply Hperm].
  - intros Hord. simpl. now rewrite Hord.
Qed.

(** C10: when the backend call of a get operation succeeds, [execute]
    returns the reference the backend returned; no envelope object is
    modified (none of its fields, [queryResults] included, changes); every
    query result object other than the one the envelope refers to is
    unchanged; in the one it refers to, the fields other than [pageToken]
    and [allResultsEnc] are unchanged; and when the envelope has no
    [queryResults], the heap is exactly the one the backend left, even if a
    continuation token or an ordering spec was supplied. *)
Theorem get_execute_frame `{Backend} (this : GetOperation)
    (w : World) (o : BackendOperation) (h1 : Heap) (res : ref) :
  operation (get_base this) = Some o ->
  backend_execute o (heap w) = (h1, inr res) ->
  exists w' : World,
    GetOperation_execute this w = (w', inr res)
    /\ answers (heap w') = answers h1
    /\ (forall q', read_queryResults h1 res <> Some q' ->
                   results (heap w') !! q' = results h1 !! q')
    /\ (forall q', qr_rest <$> results (heap w') !! q'
                   = qr_rest <$> results h1 !! q')
    /\ (read_queryResults h1 res = None -> heap w' = h1).
Proof.
  intros Ho Hb. eexists.
  split; [exact (GetOperation_execute_run this w o h1 res Ho Hb)|].
  cbn [heap]. split; [|split; [|split]].
  - now rewrite order_results_answers, stamp_pageToken_answers.
  - intros q' Hq'. now apply post_process_other.
  - intros q'. apply post_process_rest.
  - intros Hnone. rewrite (stamp_pageToken_none this res h1 Hnone).
    now apply order_results_none.
Qed.

Lemma continuation_token_stamped_witness :
  exists w' qr',
    @GetOperation_execute _ Demo.get_backend
      (Demo.built_get (Some "T1") None) Demo.empty_world = (w', inr 0)
    /\ results (heap w') !! 1 = Some qr'
    /\ pageToken qr' = Some "T1".
Proof.
  destruct (@continuation_token_stamped _ Demo.get_backend
              (Demo.built_get (Some "T1") None) Demo.empty_world
              Demo.get_handle Demo.answer_heap 0 1 Demo.answer0 Demo.result1)
    as (w' & qr' & He & _ & Hr & Ht & _); try reflexivity.
  exists w', qr'. split; [exact He|]. split; [exact Hr|].
  apply Ht. reflexivity.
Defined.

Lemma results_ordered_witness :
  exists w' qr',
    @GetOperation_execute _ Demo.get_backend
      (Demo.built_get None (Some ["k"])) Demo.empty_world = (w', inr 0)
    /\ results (heap w') !! 1 = Some qr'
    /\ allResultsEnc qr' = Some [1; 2; 3].
Proof.
  destruct (@results_ordered _ Demo.get_backend
              (Demo.built_get None (Some ["k"])) Demo.empty_world
              Demo.get_handle Demo.answer_heap 0 1 Demo.answer0 Demo.result1)
    as (w' & qr' & He & _ & Hr & Hord & _); try reflexivity.
  exists w', qr'. split; [exact He|]. split; [exact Hr|].
  destruct (Hord ["k"] [3; 1; 2]) as [Hl _]; try reflexivity.
  exact Hl.
Defined.

Lemma get_execute_frame_witness :
  exists w',
    @GetOperation_execute _ Demo.bare_backend
      (Demo.built_get (Some "T1") (Some ["k"])) Demo.empty_world = (w', inr 0)
    /\ heap w' = Demo.bare_heap.
Proof.
  destruct (@get_execute_frame _ Demo.bare_backend
              (Demo.built_get (Some "T1") (Some ["k"])) Demo.empty_world
              Demo.get_handle Demo.bare_heap 0)
    as (w' & He & _ & _ & _ & Hbare); try reflexivity.
  exists w'. split; [exact He|]. apply Hbare. reflexivity.
Defined.

(** ** Executing a batch *)

Section BatchProofs.
Context `{Backend}.

Lemma insert_by_tick_perm (p : BaseOperation) (l : list BaseOperation) :
  Permutation (insert_by_tick p l) (p :: l).
Proof.
  induction l as [|q l IH]; simpl; [reflexivity|].
  destruct (Nat.leb _ _); [reflexivity|].
  rewrite IH. apply perm_swap.
Qed.

Lemma settle_order_perm (ps : list BaseOperation) :
  Permutation (settle_order ps) ps.
Proof.
  induction ps as [|p ps IH]; simpl; [reflexivity|].
  rewrite insert_by_tick_perm. now constructor.
Qed.

(** What awaiting a list of settlements does: the promises are observed
    in order up to the first rejected one, whose reason is thrown. *)
Lemma await_settlements_run (ps : list BaseOperation) (w : World) :
  exists settled : list BaseOperation,
    exists r : JsError + unit,
      await_settlements ps w
      = ({| heap := heap w; trace := trace w ++ map EvSettled settled |}, r)
      /\ ((Forall (fun p => rejection (createTable p) = None) ps
           /\ settled = ps /\ r = inr tt)
          \/ (exists p e, In p ps /\ rejection (createTable p) = Some e
                          /\ r = inl e)).
Proof.
  revert w. induction ps as [|p ps IH]; intros w.
  - exists [], (inr tt). simpl. rewrite app_nil_r. split.
    + now destruct w.
    + left. repeat split. constructor.
  - simpl. unfold bind, emit. simpl.
    destruct (rejection (createTable p)) as [e|] eqn:Hp.
    + exists [p], (inl e). split; [reflexivity|].
      right. exists p, e. simpl. auto.
    + destruct (IH {| heap := heap w; trace := trace w ++ [EvSettled p] |})
        as (settled & r & Hrun & Hcases).
      exists (p :: settled), r. split.
      * rewrite Hrun. simpl. now rewrite <- app_assoc.
      * destruct Hcases as [(Hall & -> & ->) | (p' & e & Hin & Hrej & ->)].
        -- left. repeat split. now constructor.
        -- right. exists p', e. simpl. auto.
Qed.

Lemma createAllTables_run (this : BatchOperation) (w : World) :
  exists settled : list BaseOperation,
    exists r : JsError + unit,
      BatchOperation_createAllTables this w
      = ({| heap := heap w;
            trace := trace w
                     ++ map EvCreateTable
                          (List.filter canCreateTable (operationsArray this))
                     ++ map EvSettled settled |}, r)
      /\ ((Forall (fun p => rejection (createTable p) = None)
             (List.filter canCreateTable (operationsArray this))
           /\ Permutation settled
                (List.filter canCreateTable (operationsArray this))
           /\ r = inr tt)
          \/ (exists p e,
                In p (List.filter canCreateTable (operationsArray this))
                /\ rejection (createTable p) = Some e /\ r = inl e)).
Proof.
  unfold BatchOperation_createAllTables, Promise_all, bind, emit.
  set (ps := List.filter canCreateTable (operationsArray this)).
  destruct (await_settlements_run (settle_order ps)
              {| heap := heap w; trace := trace w ++ map EvCreateTable ps |})
    as (settled & r & Hrun & Hcases).
  exists settled, r. split.
  - rewrite Hrun. simpl. now rewrite <- app_assoc.
  - destruct Hcases as [(Hall & -> & ->) | (p & e & Hin & Hrej & ->)].
    + left. split; [|split; [apply settle_order_perm | reflexivity]].
      eapply Permutation_Forall; [apply settle_order_perm | exact Hall].
    + right. exists p, e. split; [|auto].
      eapply Permutation_in; [apply settle_order_perm | exact Hin].
Qed.

Lemma collect_operations_built (ops : list BaseOperation) :
  forall acc : list BackendOperation,
    Forall (fun op => operation op <> None) ops ->
    exists arr, collect_operations ops acc = inr arr.
Proof.
  induction ops as [|op ops IH]; intros acc Hall; simpl; [eauto|].
  inversion Hall as [|? ? Hop Hrest]; subst.
  destruct (operation op); [|contradiction]. now apply IH.
Qed.

(** A batch whose members are all built composes its handle. *)
Lemma BatchOperation_buildOperation_built (this : BatchOperation) :
  Forall (fun op => operation op <> None) (operationsArray this) ->
  exists this1 h,
    BatchOperation_buildOperation this = (this1, inr tt)
    /\ batch_operation this1 = Some h.
Proof.
  intros Hall. unfold BatchOperation_buildOperation.
  destruct (collect_operations_built _ [] Hall) as [arr ->].
  eexists. eexists. split; reflexivity.
Qed.

Lemma BatchOperation_buildOperation_members (this this1 : BatchOperation)
    (r : JsError + unit) :
  BatchOperation_buildOperation this = (this1, r) ->
  operationsArray this1 = operationsArray this.
Proof.
  unfold BatchOperation_buildOperation.
  destruct (collect_operations _ _); intros E; injection E as <- _; reflexivity.
Qed.

(** The shape of [execute] once the handle is composed. *)
Lemma BatchOperation_execute_built (this this1 : BatchOperation) (w : World)
    (h : BackendBatch) :
  BatchOperation_buildOperation this = (this1, inr tt) ->
  batch_operation this1 = Some h ->
  BatchOperation_execute this w
  = (this1,
     (await res <- catch (run_batch h) (recovery_handler this1) ;;
      await_ emit (map EvDone (operationsArray this1)) ;;
      ret res) w).
Proof.
  intros Hb Hh. unfold BatchOperation_execute. now rewrite Hb, Hh.
Qed.

End BatchProofs.

Lemma sentinel_not_table_missing : is_table_missing tableCreationError = false.
Proof. reflexivity. Qed.

(** C1 (as stated, refuted): the backend call of a batch of two creatable
    members fails with the unconfigured-table error of code 8704;
    [createTable()] is invoked on both members, the promise of the first is
    rejected, and [execute] raises that rejection, not the retry sentinel,
    without waiting for the call of the second member to complete. *)
Lemma createTable_rejection_propagates :
  is_table_missing Demo.unconfigured = true
  /\ snd (@BatchOperation_execute _
            (Demo.batch_backend (inl Demo.unconfigured))
            (Demo.batch_of [Demo.failing_a; Demo.slow_b]) Demo.empty_world)
     = ({| heap := heap Demo.empty_world;
           trace := [EvExecuteBatch Demo.handle2;
                     EvCreateTable Demo.failing_a;
                     EvCreateTable Demo.slow_b;
                     EvSettled Demo.failing_a] |},
        inl Demo.creation_failed)
  /\ Demo.creation_failed <> tableCreationError.
Proof.
  split; [reflexivity|]. split; [reflexivity | discriminate].
Qed.

(** C1 (amended): for every batch execution whose backend call fails with
    an error that either has code 8704 with a message starting with
    "unconfigured table", or has a message matching the "Collection ...
    does not exist." pattern, [execute] invokes [createTable()] on every
    member whose [canCreateTable] is true, in the order of the batch, and
    on no member whose [canCreateTable] is false; when all the promises of
    these calls resolve, it waits until every one has settled and then
    raises [tableCreationError], which is not the original error; when one
    of them is rejected, it raises the reason of a rejected call instead. *)
Theorem table_missing_recovery `{Backend} (this this1 : BatchOperation)
    (w : World) (h : BackendBatch) (h1 : Heap) (err : JsError) :
  BatchOperation_buildOperation this = (this1, inr tt) ->
  batch_operation this1 = Some h ->
  backend_execute_batch h (heap w) = (h1, inl err) ->
  is_table_missing err = true ->
  exists (settled : list BaseOperation) (thrown : JsError),
    BatchOperation_execute this w
    = (this1,
       ({| heap := h1;
           trace := trace w ++ [EvExecuteBatch h]
                    ++ map EvCreateTable
                         (List.filter canCreateTable (operationsArray this))
                    ++ map EvSettled settled |},
        inl thrown))
    /\ (Forall (fun op => rejection (createTable op) = None)
          (List.filter canCreateTable (operationsArray this)) ->
        Permutation settled (List.filter canCreateTable (operationsArray this))
        /\ thrown = tableCreationError
        /\ thrown <> err)
    /\ (~ Forall (fun op => rejection (createTable op) = None)
          (List.filter canCreateTable (operationsArray this)) ->
        exists op,
          In op (List.filter canCreateTable (operationsArray this))
          /\ rejection (createTable op) = Some thrown).
Proof.
  intros Hbuild Hh Hback Hclass.
  pose proof (BatchOperation_buildOperation_members _ _ _ Hbuild) as Hops.
  rewrite (BatchOperation_execute_built this this1 w h Hbuild Hh).
  unfold bind, catch, run_batch. rewrite Hback.
  unfold recovery_handler. rewrite Hclass. unfold bind.
  destruct (createAllTables_run this1
              {| heap := h1; trace := trace w ++ [EvExecuteBatch h] |})
    as (settled & r & Hrun & Hcases).
  rewrite Hrun, Hops in *. cbn [heap trace] in *.
  destruct Hcases as [(Hall & Hperm & ->) | (p & e & Hin & Hrej & ->)].
  - exists settled, tableCreationError. split; [|split].
    + unfold throw. now rewrite <- app_assoc.
    + intros _. split; [exact Hperm|]. split; [reflexivity|].
      intros <-. rewrite sentinel_not_table_missing in Hclass. discriminate.
    + intros Hnot. contradiction.
  - exists settled, e. split; [|split].
    + now rewrite <- app_assoc.
    + intros Hall. rewrite List.Forall_forall in Hall.
      rewrite (Hall p Hin) in Hrej. discriminate.
    + intros _. exists p. auto.
Qed.

Lemma table_missing_recovery_witness :
  exists w',
    @BatchOperation_execute _
      (Demo.batch_backend (inl Demo.collection_missing))
      Demo.batch3 Demo.empty_world
    = (Demo.built_batch3, (w', inl tableCreationError)).
Proof.
  destruct (@table_missing_recovery _
              (Demo.batch_backend (inl Demo.collection_missing))
              Demo.batch3 Demo.built_batch3 Demo.empty_world Demo.handle3
              (heap Demo.empty_world) Demo.collection_missing)
    as (settled & thrown & Hexec & Hok & _); try reflexivity.
  destruct Hok as (_ & -> & _).
  { repeat constructor. }
  eexists. exact Hexec.
Defined.

(** The scenario of three members, two of which may create their table:
    exactly two [createTable()] calls are made, both are awaited in the
    order they settle, and the sentinel is raised. *)
Example three_members_two_creations :
  snd (@BatchOperation_execute _
         (Demo.batch_backend (inl Demo.collection_missing))
         Demo.batch3 Demo.empty_world)
  = ({| heap := heap Demo.empty_world;
        trace := [EvExecuteBatch Demo.handle3;
                  EvCreateTable Demo.creatable_a;
                  EvCreateTable Demo.creatable_c;
                  EvSettled Demo.creatable_c;
                  EvSettled Demo.creatable_a] |},
     inl tableCreationError).
Proof. reflexivity. Qed.

(** C2: for every batch execution whose backend call fails with an error
    that is not classified as table-missing (neither code 8704 with a
    message starting with "unconfigured table", nor a message matching the
    "Collection ... does not exist." pattern), [execute] makes no
    [createTable()] call, the only event being the backend call, and
    raises the original error itself. *)
Theorem other_errors_pass_through `{Backend} (this this1 : BatchOperation)
    (w : World) (h : BackendBatch) (h1 : Heap) (err : JsError) :
  BatchOperation_buildOperation this = (this1, inr tt) ->
  batch_operation this1 = Some h ->
  backend_execute_batch h (heap w) = (h1, inl err) ->
  is_table_missing err = false ->
  BatchOperation_execute this w
  = (this1,
     ({| heap := h1; trace := trace w ++ [EvExecuteBatch h] |}, inl err)).
Proof.
  intros Hbuild Hh Hback Hclass.
  rewrite (BatchOperation_execute_built this this1 w h Hbuild Hh).
  unfold bind, catch, run_batch. rewrite Hback.
  unfold recovery_handler. rewrite Hclass. reflexivity.
Qed.

Lemma other_errors_pass_through_witness :
  @BatchOperation_execute _ (Demo.batch_backend (inl Demo.timeout_error))
    Demo.batch3 Demo.empty_world
  = (Demo.built_batch3,
     ({| heap := heap Demo.empty_world;
         trace := [EvExecuteBatch Demo.handle3] |},
      inl Demo.timeout_error)).
Proof.
  apply (@other_errors_pass_through _
           (Demo.batch_backend (inl Demo.timeout_error))
           Demo.batch3 Demo.built_batch3 Demo.empty_world Demo.handle3
           (heap Demo.empty_world) Demo.timeout_error); reflexivity.
Defined.

(** C6: for every batch whose composed backend operation executes
    successfully, [execute] invokes [done()] exactly once on every member,
    in the order the members appear in the batch and after the backend
    call, makes no [createTable()] call, and returns the reference the
    backend returned, on the heap the backend left. *)
Theorem batch_success_done `{Backend} (this this1 : BatchOperation)
    (w : World) (h : BackendBatch) (h1 : Heap) (res : ref) :
  BatchOperation_buildOperation this = (this1, inr tt) ->
  batch_operation this1 = Some h ->
  backend_execute_batch h (heap w) = (h1, inr res) ->
  BatchOperation_execute this w
  = (this1,
     ({| heap := h1;
         trace := trace w ++ [EvExecuteBatch h]
                  ++ map EvDone (operationsArray this) |},
      inr res)).
Proof.
  intros Hbuild Hh Hback.
  pose proof (BatchOperation_buildOperation_members _ _ _ Hbuild) as Hops.
  rewrite (BatchOperation_execute_built this this1 w h Hbuild Hh).
  unfold bind, catch, run_batch. rewrite Hback.
  unfold emit, ret. cbn [heap trace]. now rewrite Hops, <- app_assoc.
Qed.

Lemma batch_success_done_witness :
  @BatchOperation_execute _ (Demo.batch_backend (inr 7))
    Demo.batch3 Demo.empty_world
  = (Demo.built_batch3,
     ({| heap := heap Demo.empty_world;
         trace := [EvExecuteBatch Demo.handle3;
                   EvDone Demo.creatable_a;
                   EvDone Demo.plain_b;
                   EvDone Demo.creatable_c] |},
      inr 7)).
Proof.
  apply (@batch_success_done _ (Demo.batch_backend (inr 7))
           Demo.batch3 Demo.built_batch3 Demo.empty_world Demo.handle3
           (heap Demo.empty_world) 7); reflexivity.
Defined.

(** ** The error pattern *)

Lemma strip_prefix_Some (p s r : string) :
  strip_prefix p s = Some r <-> s = String.append p r.
Proof.
  revert s. induction p as [|a p IH]; intros s; simpl.
  - split; [now intros [= ->] | now intros ->].
  - destruct s as [|b s].
    + split; discriminate.
    + destruct (Ascii.eqb_spec a b) as [->|Hne].
      * rewrite IH. split; [now intros -> | now intros [= ->]].
      * split; [discriminate | intros [= -> _]; contradiction].
Qed.

Lemma skip_name_split (s : string) :
  exists name, s = String.append name (skip_name s)
               /\ all_name_class name = true.
Proof.
  induction s as [|c s (name & Hs & Hname)]; simpl.
  - exists "". split; reflexivity.
  - destruct (in_name_class c) eqn:Hc.
    + exists (String c name). simpl. rewrite Hc, Hname. split; [|reflexivity].
      now rewrite <- Hs.
    + exists "". split; reflexivity.
Qed.

Lemma skip_name_app (name : string) (c : ascii) (rest : string) :
  all_name_class name = true -> in_name_class c = false ->
  skip_name (String.append name (String c rest)) = String c rest.
Proof.
  intros Hname Hc. induction name as [|a name IH]; simpl.
  - now rewrite Hc.
  - simpl in Hname. apply andb_true_iff in Hname as [Ha Hname].
    rewrite Ha. now apply IH.
Qed.

(** The matcher accepts exactly the strings the expression denotes. *)
Lemma matches_collection_missing_spec (msg : string) :
  matches_collection_missing msg = true <-> collection_missing_shape msg.
Proof.
  unfold matches_collection_missing, collection_missing_shape. split.
  - destruct (strip_prefix "Collection " msg) as [rest|] eqn:Hp;
      [|discriminate].
    apply strip_prefix_Some in Hp.
    destruct (skip_name_split rest) as (name & Hrest & Hname).
    destruct (strip_prefix " does not exist" (skip_name rest)) as [[|c tail]|]
      eqn:Hs; try discriminate.
    apply strip_prefix_Some in Hs. intros Hdot.
    exists name, c, tail. rewrite <- Hs, <- Hrest. auto.
  - intros (name & c & tail & -> & Hname & Hdot).
    assert (Hp : strip_prefix "Collection "
                   (String.append "Collection "
                      (String.append name
                         (String.append " does not exist" (String c tail))))
                 = Some (String.append name
                           (String.append " does not exist" (String c tail)))).
    { now apply strip_prefix_Some. }
    rewrite Hp.
    change (String.append " does not exist" (String c tail))
      with (String " " (String.append "does not exist" (String c tail))).
    rewrite skip_name_app; [| exact Hname | reflexivity].
    change (String " " (String.append "does not exist" (String c tail)))
      with (String.append " does not exist" (String c tail)).
    assert (Hs : strip_prefix " does not exist"
                   (String.append " does not exist" (String c tail))
                 = Some (String c tail)).
    { now apply strip_prefix_Some. }
    rewrite Hs. exact Hdot.
Qed.

Example classified_by_code : is_table_missing Demo.unconfigured = true.
Proof. reflexivity. Qed.

Example classified_by_pattern :
  is_table_missing Demo.collection_missing = true.
Proof. reflexivity. Qed.

Example prefix_without_code :
  is_table_missing (new_Error "unconfigured table users") = false.
Proof. reflexivity. Qed.

Example pattern_needs_a_following_character :
  is_table_missing (new_Error "Collection users does not exist") = false.
Proof. reflexivity. Qed.

Example not_classified : is_table_missing Demo.timeout_error = false.
Proof. reflexivity. Qed.

(** ** Further properties of table names *)

Lemma append_assoc' (s1 s2 s3 : string) :
  String.append (String.append s1 s2) s3
  = String.append s1 (String.append s2 s3).
Proof. induction s1 as [|c s1 IH]; simpl; [reflexivity | now rewrite IH]. Qed.

Lemma concat_separator_cons (c : string) (p : list string) :
  p <> [] ->
  String.concat "_" (c :: p)
  = String.append c (String "_" (String.concat "_" p)).
Proof. destruct p; [contradiction | reflexivity]. Qed.

Lemma concat_separator_snoc (p : list string) (c : string) :
  p <> [] ->
  String.concat "_" (p ++ [c])
  = String.append (String.concat "_" p) (String "_" c).
Proof.
  induction p as [|a p IH]; intros Hne; [contradiction|].
  destruct p as [|b p]; [reflexivity|].
  change ((a :: b :: p) ++ [c]) with (a :: ((b :: p) ++ [c])).
  rewrite concat_separator_cons by (simpl; discriminate).
  rewrite IH by discriminate.
  rewrite (concat_separator_cons a (b :: p)) by discriminate.
  now rewrite append_assoc'.
Qed.

(** X1: the table name of a path extended by one collection is the table
    name of the path, one "_", and the name of the added collection: the
    table of a sub-collection carries the name of its parent's table as a
    prefix. *)
Theorem buildTableName_snoc (p : list string) (c : string) :
  p <> [] ->
  buildTableName (p ++ [c])
  = String.append (buildTableName p) (String.append "_" c).
Proof.
  intros Hne. rewrite !buildTableName_concat.
  now apply concat_separator_snoc.
Qed.

Lemma buildTableName_snoc_witness :
  buildTableName (["users"; "orders"] ++ ["items"])
  = String.append (buildTableName ["users"; "orders"])
      (String.append "_" "items").
Proof. apply buildTableName_snoc. discriminate. Defined.

Lemma concat_separator_inj_any (p q : list string) :
  p <> [] -> q <> [] ->
  forallb no_separator p = true -> forallb no_separator q = true ->
  String.concat "_" p = String.concat "_" q -> p = q.
Proof.
  revert q. induction p as [|c p IH]; intros [|d q] Hp0 Hq0 Hp Hq E;
    try contradiction.
  simpl in Hp, Hq. apply andb_true_iff in Hp as [Hc Hp].
  apply andb_true_iff in Hq as [Hd Hq].
  destruct p as [|c' p], q as [|d' q].
  - simpl in E. now subst.
  - exfalso. rewrite (concat_separator_cons d (d' :: q)) in E by discriminate.
    change (String.concat "_" [c]) with c in E.
    exact (no_separator_not_split c d _ Hc E).
  - exfalso. rewrite (concat_separator_cons c (c' :: p)) in E by discriminate.
    change (String.concat "_" [d]) with d in E.
    exact (no_separator_not_split d c _ Hd (eq_sym E)).
  - rewrite (concat_separator_cons c (c' :: p)),
      (concat_separator_cons d (d' :: q)) in E by discriminate.
    destruct (append_separator_inj _ _ _ _ Hc Hd E) as [-> E'].
    f_equal. apply IH; auto; discriminate.
Qed.

(** X2: among non-empty paths whose collection names do not contain "_",
    two paths with the same table name are equal, whatever their lengths:
    the path can be recovered from the name. *)
Theorem buildTableName_injective_any_length (p q : list string) :
  p <> [] -> q <> [] ->
  forallb no_separator p = true -> forallb no_separator q = true ->
  buildTableName p = buildTableName q -> p = q.
Proof.
  intros Hp0 Hq0 Hp Hq E. rewrite !buildTableName_concat in E.
  now apply concat_separator_inj_any.
Qed.

Lemma buildTableName_injective_any_length_witness :
  buildTableName ["users"; "orders"] = "users_orders"
  /\ ["users"; "orders"] = ["users"; "orders"].
Proof.
  split; [reflexivity|].
  apply buildTableName_injective_any_length;
    [discriminate | discriminate | reflexivity | reflexivity | reflexivity].
Defined.

(** ** Further properties of entries *)

Lemma key_at_beyond (cs : list string) (i : nat) :
  length cs <= i -> key_at cs i = "undefined".
Proof. intros Hi. unfold key_at. now rewrite lookup_ge_None_2. Qed.

Lemma buildEntry_loop_ext (cs cs' ds : list string) :
  forall (i : nat) (entry : gmap string string),
    (forall j, j < length ds -> key_at cs (i + j) = key_at cs' (i + j)) ->
    buildEntry_loop cs i ds entry = buildEntry_loop cs' i ds entry.
Proof.
  induction ds as [|d ds IH]; intros i entry Hk; simpl; [reflexivity|].
  pose proof (Hk 0 ltac:(simpl; lia)) as H0. rewrite Nat.add_0_r in H0.
  rewrite H0. apply IH. intros j Hj.
  replace (S i + j) with (i + S j) by lia. apply Hk. simpl. lia.
Qed.

(** X3: when [documents] is not longer than [collections], the entry is
    built from the first [documents.length] collections only: the
    collections of the path beyond the last document do not contribute. *)
Theorem buildEntry_ignores_trailing_collections (cs ds : list string) :
  length ds <= length cs ->
  buildEntry cs ds = buildEntry (take (length ds) cs) ds.
Proof.
  intros Hlen. unfold buildEntry. apply buildEntry_loop_ext.
  intros j Hj. simpl. unfold key_at. now rewrite lookup_take_lt.
Qed.

Lemma buildEntry_ignores_trailing_collections_witness :
  buildEntry ["users"; "orders"] ["u1"] = buildEntry ["users"] ["u1"].
Proof.
  apply (buildEntry_ignores_trailing_collections ["users"; "orders"] ["u1"]).
  simpl. lia.
Defined.

Lemma set_property_size (k v : string) (entry : gmap string string) :
  size (set_property k v entry) <= S (size entry).
Proof.
  unfold set_property. destruct (String.eqb k "__proto__"); [lia|].
  rewrite map_size_insert. destruct (entry !! k); simpl; lia.
Qed.

Lemma set_property_lookup_inv (k v k' v' : string)
    (entry : gmap string string) :
  set_property k v entry !! k' = Some v' ->
  entry !! k' = Some v' \/ (k' = k /\ v' = v /\ k <> "__proto__").
Proof.
  unfold set_property. destruct (String.eqb_spec k "__proto__") as [->|Hk].
  - auto.
  - destruct (decide (k = k')) as [<-|Hne].
    + rewrite lookup_insert_eq. intros [= <-]. auto.
    + rewrite lookup_insert_ne by exact Hne. auto.
Qed.

Lemma buildEntry_loop_size_le (cs ds : list string) :
  forall (i : nat) (entry : gmap string string),
    size (buildEntry_loop cs i ds entry) <= size entry + length ds.
Proof.
  induction ds as [|d ds IH]; intros i entry; simpl; [lia|].
  specialize (IH (S i) (set_property (key_at cs i) d entry)).
  pose proof (set_property_size (key_at cs i) d entry). lia.
Qed.

Lemma buildEntry_loop_lookup_inv (cs ds : list string) :
  forall (i : nat) (entry : gmap string string) (k v : string),
    buildEntry_loop cs i ds entry !! k = Some v ->
    entry !! k = Some v
    \/ (k <> "__proto__"
        /\ exists j, ds !! j = Some v /\ k = key_at cs (i + j)).
Proof.
  induction ds as [|d ds IH]; intros i entry k v Hk; simpl in Hk; [auto|].
  destruct (IH _ _ _ _ Hk) as [He | (Hp & j & Hj & ->)].
  - destruct (set_property_lookup_inv _ _ _ _ _ He) as [? | (-> & -> & Hp)];
      [auto|].
    right. split; [exact Hp|]. exists 0. now rewrite Nat.add_0_r.
  - right. split; [exact Hp|]. exists (S j). split; [exact Hj|].
    f_equal. lia.
Qed.

(** X4: whatever the two arrays, the entry has at most [documents.length]
    keys, every value it holds is one of the documents, no key is
    "__proto__", and every key is a collection name, or is "undefined"
    when there are more documents than collections. *)
Theorem buildEntry_keys_and_values (cs ds : list string) :
  size (buildEntry cs ds) <= length ds
  /\ forall k v : string,
       buildEntry cs ds !! k = Some v ->
       v ∈ ds
       /\ k <> "__proto__"
       /\ (k ∈ cs \/ (k = "undefined" /\ length cs < length ds)).
Proof.
  split.
  - unfold buildEntry.
    pose proof (buildEntry_loop_size_le cs ds 0 ∅) as Hs.
    rewrite map_size_empty in Hs. exact Hs.
  - intros k v Hk. unfold buildEntry in Hk.
    destruct (buildEntry_loop_lookup_inv cs ds 0 ∅ k v Hk)
      as [He | (Hp & j & Hj & ->)].
    + rewrite lookup_empty in He. discriminate.
    + split; [|split; [exact Hp|]].
      * apply list_elem_of_lookup. eauto.
      * simpl. destruct (Nat.lt_ge_cases j (length cs)) as [Hlt|Hge].
        -- left. now apply key_at_elem.
        -- right. split; [now apply key_at_beyond|].
           apply lookup_lt_Some in Hj. lia.
Qed.

Lemma buildEntry_loop_last_wins (cs ds : list string) :
  forall (i : nat) (entry : gmap string string) (j : nat) (d : string),
    ds !! j = Some d ->
    key_at cs (i + j) <> "__proto__" ->
    (forall j', j < j' < length ds ->
                key_at cs (i + j') <> key_at cs (i + j)) ->
    buildEntry_loop cs i ds entry !! key_at cs (i + j) = Some d.
Proof.
  induction ds as [|d0 ds IH]; intros i entry j d Hd Hp Hlater.
  - discriminate Hd.
  - simpl. destruct j as [|j]; simpl in Hd.
    + injection Hd as ->. rewrite Nat.add_0_r in *.
      rewrite buildEntry_loop_other.
      * rewrite set_property_ordinary by exact Hp. apply lookup_insert_eq.
      * intros j Hj. replace (S i + j) with (i + S j) by lia.
        apply (Hlater (S j)). simpl. lia.
    + replace (i + S j) with (S i + j) in * by lia.
      apply IH; [exact Hd | exact Hp |].
      intros j' Hj'. replace (S i + j') with (i + S j') by lia.
      apply Hlater. simpl. lia.
Qed.

(** X5: the last write wins: the document at index [i] is the value of the
    key taken from [collections[i]] (or "undefined" beyond the path)
    whenever that key is not "__proto__" and no later document is written
    under the same key, also when collection names repeat and whatever the
    lengths of the two arrays. *)
Theorem buildEntry_last_write_wins (cs ds : list string) (i : nat)
    (d : string) :
  ds !! i = Some d ->
  key_at cs i <> "__proto__" ->
  (forall j, i < j < length ds -> key_at cs j <> key_at cs i) ->
  buildEntry cs ds !! key_at cs i = Some d.
Proof.
  intros Hd Hp Hlater. unfold buildEntry.
  exact (buildEntry_loop_last_wins cs ds 0 ∅ i d Hd Hp Hlater).
Qed.

Lemma buildEntry_last_write_wins_witness :
  buildEntry ["a"; "b"; "a"] ["1"; "2"; "3"] !! "a" = Some "3".
Proof.
  apply (buildEntry_last_write_wins ["a"; "b"; "a"] ["1"; "2"; "3"] 2 "3").
  - reflexivity.
  - discriminate.
  - simpl. intros j Hj. lia.
Defined.

(** X6: when there are more documents than collections, the documents
    beyond the path are written under the key "undefined", and the entry
    holds the last document there. *)
Theorem buildEntry_overflow_undefined (cs ds : list string) :
  length cs < length ds ->
  buildEntry cs ds !! "undefined" = last ds.
Proof.
  intros Hlen. rewrite last_lookup.
  destruct (lookup_lt_is_Some_2 ds (pred (length ds)) ltac:(lia)) as [d Hd].
  rewrite Hd.
  rewrite <- (key_at_beyond cs (pred (length ds))) by lia.
  unfold buildEntry.
  apply (buildEntry_loop_last_wins cs ds 0 ∅ (pred (length ds)) d Hd).
  - simpl. rewrite key_at_beyond by lia. discriminate.
  - intros j Hj. lia.
Qed.

Lemma buildEntry_overflow_undefined_witness :
  buildEntry ["users"] ["u1"; "o7"; "i3"] !! "undefined" = Some "i3".
Proof.
  apply (buildEntry_overflow_undefined ["users"] ["u1"; "o7"; "i3"]).
  simpl. lia.
Defined.

(** ** Constructing and building operations *)

(** X7: the constructor of [SaveOperation] succeeds exactly when the two
    arrays of the request have the same length and the request carries an
    encoded object; the operation it returns is a save whatever action the
    request named, keeps the parity of the path, holds the payload of the
    request, and has no table, no backend operation and no permission to
    create its table. *)
Theorem SaveOperation_new_invariants `{Shapes}
    (request : InternalOperationDescription) (impl : Settlement) :
  ((exists s, SaveOperation_new request impl = inr s)
   <-> (length (req_documents request) = length (req_collections request)
        /\ req_encObject request <> None))
  /\ (forall s : SaveOperation,
        SaveOperation_new request impl = inr s ->
        action (save_base s) = myTypes.save
        /\ collections (save_base s) = req_collections request
        /\ documents (save_base s) = req_documents request
        /\ length (documents (save_base s))
           = length (collections (save_base s))
        /\ object s = req_encObject request
        /\ object s <> None
        /\ table (save_base s) = None
        /\ operation (save_base s) = None
        /\ canCreateTable (save_base s) = false).
Proof.
  unfold SaveOperation_new. simpl.
  destruct (Nat.eqb_spec (length (req_documents request))
              (length (req_collections request))) as [E|E]; simpl.
  - destruct (req_encObject request) as [enc|] eqn:Henc.
    + split.
      * split; [intros _; split; [exact E | discriminate] | eauto].
      * intros s [= <-]. simpl. repeat split; auto.
    + split.
      * split; [intros [s Hs]; discriminate | intros [_ Hn]; contradiction].
      * intros s Hs. discriminate.
  - split.
    + split; [intros [s Hs]; discriminate | intros [Hl _]; contradiction].
    + intros s Hs. discriminate.
Qed.

Lemma SaveOperation_new_invariants_witness :
  @SaveOperation_new Demo.shapes Samples.save_request Demo.instant
  = inr Samples.fresh_save
  /\ action (save_base Samples.fresh_save) = myTypes.save.
Proof.
  split; [reflexivity|].
  destruct (@SaveOperation_new_invariants Demo.shapes Samples.save_request
              Demo.instant) as [_ Hinv].
  destruct (Hinv Samples.fresh_save eq_refl) as [Ha _]. exact Ha.
Defined.

(** X8: an operation as its constructor returns it cannot be built or
    executed: [buildOperation()] throws "Undefined table" and [execute()]
    throws "unable to execute CQL operation, query not built", for save,
    get and remove operations alike, leaving the operation and the world
    as they were. *)
Theorem constructed_operations_unusable `{Backend}
    (request : InternalOperationDescription) (impl : Settlement)
    (token : option string) (order : option (list string)) (w : World) :
  (forall s : SaveOperation,
     SaveOperation_new request impl = inr s ->
     SaveOperation_buildOperation s = (s, inl (new_Error "Undefined table"))
     /\ SaveOperation_execute s w
        = (w, inl (new_Error
                     "unable to execute CQL operation, query not built")))
  /\ GetOperation_buildOperation (GetOperation_new request token order impl)
     = (GetOperation_new request token order impl,
        inl (new_Error "Undefined table"))
  /\ GetOperation_execute (GetOperation_new request token order impl) w
     = (w, inl (new_Error "unable to execute CQL operation, query not built"))
  /\ RemoveOperation_buildOperation (RemoveOperation_new request impl)
     = (RemoveOperation_new request impl, inl (new_Error "Undefined table"))
  /\ RemoveOperation_execute (RemoveOperation_new request impl) w
     = (w, inl (new_Error "unable to execute CQL operation, query not built")).
Proof.
  split; [|repeat split].
  intros s Hs. unfold SaveOperation_new in Hs.
  destruct (negb _); [discriminate|].
  destruct (req_encObject request); [|discriminate].
  injection Hs as <-. split; reflexivity.
Qed.

Lemma constructed_operations_unusable_witness :
  @SaveOperation_buildOperation _ Demo.get_backend Samples.fresh_save
  = (Samples.fresh_save, inl (new_Error "Undefined table")).
Proof.
  destruct (@constructed_operations_unusable _ Demo.get_backend
              Samples.save_request Demo.instant None None Demo.empty_world)
    as [Hsave _].
  destruct (Hsave Samples.fresh_save eq_refl) as [Hb _]. exact Hb.
Defined.

(** X9: whatever action their requests name, a list that contains an
    operation made by the constructor of [GetOperation] is refused by the
    constructor of [BatchOperation], and a list of operations made by the
    constructors of [SaveOperation] and [RemoveOperation] is accepted. *)
Theorem constructed_members_composition `{Backend} :
  (forall (request : InternalOperationDescription) (token : option string)
          (order : option (list string)) (impl : Settlement)
          (batch : list BaseOperation) (isolation : bool),
     get_base (GetOperation_new request token order impl) ∈ batch ->
     BatchOperation_new batch isolation = inl composition_error)
  /\ (forall (batch : list BaseOperation) (isolation : bool),
        (forall op, op ∈ batch ->
           (exists request impl s,
              SaveOperation_new request impl = inr s /\ op = save_base s)
           \/ (exists request impl,
                 op = remove_base (RemoveOperation_new request impl))) ->
        exists b, BatchOperation_new batch isolation = inr b
                  /\ operationsArray b = batch).
Proof.
  split.
  - intros request token order impl batch isolation Hin.
    unfold BatchOperation_new. rewrite check_members_rejects; [reflexivity|].
    apply Exists_exists. eexists. split; [exact Hin | reflexivity].
  - intros batch isolation Hall. unfold BatchOperation_new.
    rewrite check_members_accepts; [eexists; split; reflexivity|].
    apply List.Forall_forall. intros op Hin.
    apply list_elem_of_In in Hin.
    destruct (Hall op Hin) as [(request & impl & s & Hs & ->)
                              | (request & impl & ->)]; [|reflexivity].
    unfold SaveOperation_new in Hs.
    destruct (negb _); [discriminate|].
    destruct (req_encObject request); [|discriminate].
    now injection Hs as <-.
Qed.

Lemma constructed_members_composition_witness :
  BatchOperation_new
    [get_base (@GetOperation_new _ Demo.get_backend Samples.save_request
                 None None Demo.instant)] true
  = inl composition_error
  /\ exists b,
       BatchOperation_new [save_base Samples.fresh_save] false = inr b.
Proof.
  destruct (@constructed_members_composition _ Demo.get_backend)
    as [Hget Hsave].
  split.
  - apply (Hget Samples.save_request None None Demo.instant).
    apply list_elem_of_In. left. reflexivity.
  - destruct (Hsave [save_base Samples.fresh_save] false) as [b [Hb _]].
    + intros op Hin. apply list_elem_of_In in Hin.
      destruct Hin as [<- | []]. left.
      exists Samples.save_request, Demo.instant, Samples.fresh_save.
      split; reflexivity.
    + exists b. exact Hb.
Defined.

(** X10: [buildOperation()] succeeds exactly when the table is resolved
    (and, for a save, the payload is defined); when it succeeds the
    operation holds a backend operation, and in every case the fields of
    the operation other than its backend operation are left as they were. *)
Theorem buildOperation_succeeds_iff `{Backend} :
  (forall this : SaveOperation,
     let this' := fst (SaveOperation_buildOperation this) in
     (snd (SaveOperation_buildOperation this) = inr tt
      <-> object this <> None /\ table (save_base this) <> None)
     /\ (snd (SaveOperation_buildOperation this) = inr tt ->
         operation (save_base this') <> None)
     /\ object this' = object this
     /\ save_options this' = save_options this
     /\ action (save_base this') = action (save_base this)
     /\ collections (save_base this') = collections (save_base this)
     /\ documents (save_base this') = documents (save_base this)
     /\ table (save_base this') = table (save_base this)
     /\ opID (save_base this') = opID (save_base this)
     /\ canCreateTable (save_base this') = canCreateTable (save_base this)
     /\ createTable (save_base this') = createTable (save_base this))
  /\ (forall this : GetOperation,
        let this' := fst (GetOperation_buildOperation this) in
        (snd (GetOperation_buildOperation this) = inr tt
         <-> table (get_base this) <> None)
        /\ (snd (GetOperation_buildOperation this) = inr tt ->
            operation (get_base this') <> None)
        /\ get_options this' = get_options this
        /\ constResToken this' = constResToken this
        /\ orderer this' = orderer this
        /\ action (get_base this') = action (get_base this)
        /\ collections (get_base this') = collections (get_base this)
        /\ documents (get_base this') = documents (get_base this)
        /\ table (get_base this') = table (get_base this)
        /\ opID (get_base this') = opID (get_base this)
        /\ canCreateTable (get_base this') = canCreateTable (get_base this)
        /\ createTable (get_base this') = createTable (get_base this))
  /\ (forall this : RemoveOperation,
        let this' := fst (RemoveOperation_buildOperation this) in
        (snd (RemoveOperation_buildOperation this) = inr tt
         <-> table (remove_base this) <> None)
        /\ (snd (RemoveOperation_buildOperation this) = inr tt ->
            operation (remove_base this') <> None)
        /\ action (remove_base this') = action (remove_base this)
        /\ collections (remove_base this') = collections (remove_base this)
        /\ documents (remove_base this') = documents (remove_base this)
        /\ table (remove_base this') = table (remove_base this)
        /\ opID (remove_base this') = opID (remove_base this)
        /\ canCreateTable (remove_base this')
           = canCreateTable (remove_base this)
        /\ createTable (remove_base this') = createTable (remove_base this)).
Proof.
  split; [|split].
  - intros this. unfold SaveOperation_buildOperation.
    destruct (object this) as [obj|] eqn:Hobj;
      [destruct (table (save_base this)) as [tbl|] eqn:Htbl|]; simpl;
      rewrite ?Hobj, ?Htbl; repeat split; auto; try discriminate;
      try (intros [? ?]; contradiction); try (intros ?; discriminate).
  - intros this. unfold GetOperation_buildOperation.
    destruct (table (get_base this)) as [tbl|] eqn:Htbl; simpl;
      rewrite ?Htbl; repeat split; auto; try discriminate;
      try (intros ?; contradiction); try (intros ?; discriminate).
  - intros this. unfold RemoveOperation_buildOperation.
    destruct (table (remove_base this)) as [tbl|] eqn:Htbl; simpl;
      rewrite ?Htbl; repeat split; auto; try discriminate;
      try (intros ?; contradiction); try (intros ?; discriminate).
Qed.

(** X11: the backend operation a successful [buildOperation()] stores is
    of the adapter family of the database core and is constructed from the
    action and the table of the operation; the keys of a save hold the
    payload under "object", also when a collection is named "object", and
    agree with the entry of the path on every other key; the keys of a get
    and of a remove are the entry of the path; a save and a get pass their
    options, or the empty options when they have none, and a remove passes
    no options. *)
Theorem built_operation_contents `{Backend} :
  (forall (this : SaveOperation) (payload tbl : string),
     object this = Some payload -> table (save_base this) = Some tbl ->
     exists o,
       operation (save_base (fst (SaveOperation_buildOperation this))) = Some o
       /\ operation_core o = core
       /\ par_action (operation_params o) = action (save_base this)
       /\ par_table (operation_params o) = tbl
       /\ par_keys (operation_params o) !! "object" = Some payload
       /\ (forall k, k <> "object" ->
             par_keys (operation_params o) !! k
             = buildEntry (collections (save_base this))
                 (documents (save_base this)) !! k)
       /\ par_options (operation_params o)
          = Some (options_or_empty (save_options this)))
  /\ (forall (this : GetOperation) (tbl : string),
        table (get_base this) = Some tbl ->
        exists o,
          operation (get_base (fst (GetOperation_buildOperation this))) = Some o
          /\ operation_core o = core
          /\ par_action (operation_params o) = action (get_base this)
          /\ par_table (operation_params o) = tbl
          /\ par_keys (operation_params o)
             = buildEntry (collections (get_base this))
                 (documents (get_base this))
          /\ par_options (operation_params o)
             = Some (options_or_empty (get_options this)))
  /\ (forall (this : RemoveOperation) (tbl : string),
        table (remove_base this) = Some tbl ->
        exists o,
          operation (remove_base (fst (RemoveOperation_buildOperation this)))
          = Some o
          /\ operation_core o = core
          /\ par_action (operation_params o) = action (remove_base this)
          /\ par_table (operation_params o) = tbl
          /\ par_keys (operation_params o)
             = buildEntry (collections (remove_base this))
                 (documents (remove_base this))
          /\ par_options (operation_params o) = None).
Proof.
  split; [|split].
  - intros this payload tbl Hobj Htbl. unfold SaveOperation_buildOperation.
    rewrite Hobj, Htbl. simpl. eexists. split; [reflexivity|].
    destruct core; simpl; repeat split; auto;
      try (unfold SaveOperation_buildEntry;
           rewrite set_property_ordinary by discriminate;
           apply lookup_insert_eq);
      intros k Hk; unfold SaveOperation_buildEntry;
      rewrite set_property_other by congruence; reflexivity.
  - intros this tbl Htbl. unfold GetOperation_buildOperation.
    rewrite Htbl. simpl. eexists. split; [reflexivity|].
    destruct core; simpl; repeat split; auto.
  - intros this tbl Htbl. unfold RemoveOperation_buildOperation.
    rewrite Htbl. simpl. eexists. split; [reflexivity|].
    destruct core; simpl; repeat split; auto.
Qed.

Lemma built_operation_contents_witness :
  exists o,
    operation
      (save_base
         (fst (@SaveOperation_buildOperation _ Demo.get_backend
                 Samples.resolved_save))) = Some o
    /\ par_keys (operation_params o) !! "object" = Some "enc".
Proof.
  destruct (@built_operation_contents _ Demo.get_backend) as [Hsave _].
  destruct (Hsave Samples.resolved_save "enc" "object" eq_refl eq_refl)
    as (o & Ho & _ & _ & _ & Hk & _).
  exists o. split; [exact Ho | exact Hk].
Defined.

(** X12: building twice is building once: [buildOperation()] called on
    the operation a first call has left gives the same operation and the
    same outcome. *)
Theorem buildOperation_idempotent `{Backend} :
  (forall this : SaveOperation,
     SaveOperation_buildOperation (fst (SaveOperation_buildOperation this))
     = SaveOperation_buildOperation this)
  /\ (forall this : GetOperation,
        GetOperation_buildOperation (fst (GetOperation_buildOperation this))
        = GetOperation_buildOperation this)
  /\ (forall this : RemoveOperation,
        RemoveOperation_buildOperation
          (fst (RemoveOperation_buildOperation this))
        = RemoveOperation_buildOperation this).
Proof.
  split; [|split].
  - intros this. unfold SaveOperation_buildOperation.
    destruct (object this) as [obj|] eqn:Hobj;
      [destruct (table (save_base this)) as [tbl|] eqn:Htbl|]; simpl;
      rewrite ?Hobj, ?Htbl; reflexivity.
  - intros this. unfold GetOperation_buildOperation.
    destruct (table (get_base this)) as [tbl|] eqn:Htbl; simpl;
      rewrite ?Htbl; reflexivity.
  - intros this. unfold RemoveOperation_buildOperation.
    destruct (table (remove_base this)) as [tbl|] eqn:Htbl; simpl;
      rewrite ?Htbl; reflexivity.
Qed.

(** X13: after a successful [buildOperation()], [execute()] of a save or
    a remove is the [execute()] of the backend operation that was built:
    the backend is called once, with that operation, and its outcome,
    result or error, is returned as it is on the heap the backend left. *)
Theorem built_operation_executes `{Backend} (w : World) :
  (forall this : SaveOperation,
     snd (SaveOperation_buildOperation this) = inr tt ->
     exists o,
       operation (save_base (fst (SaveOperation_buildOperation this))) = Some o
       /\ SaveOperation_execute (fst (SaveOperation_buildOperation this)) w
          = ({| heap := fst (backend_execute o (heap w));
                trace := trace w ++ [EvExecute o] |},
             snd (backend_execute o (heap w))))
  /\ (forall this : RemoveOperation,
        snd (RemoveOperation_buildOperation this) = inr tt ->
        exists o,
          operation (remove_base (fst (RemoveOperation_buildOperation this)))
          = Some o
          /\ RemoveOperation_execute
               (fst (RemoveOperation_buildOperation this)) w
             = ({| heap := fst (backend_execute o (heap w));
                   trace := trace w ++ [EvExecute o] |},
                snd (backend_execute o (heap w)))).
Proof.
  split.
  - intros this. unfold SaveOperation_buildOperation.
    destruct (object this); [|discriminate].
    destruct (table (save_base this)); [|discriminate].
    intros _. simpl. eexists. split; [reflexivity|].
    unfold SaveOperation_execute, BaseOperation_execute, run_operation. simpl.
    now destruct (backend_execute _ _).
  - intros this. unfold RemoveOperation_buildOperation.
    destruct (table (remove_base this)); [|discriminate].
    intros _. simpl. eexists. split; [reflexivity|].
    unfold RemoveOperation_execute, BaseOperation_execute, run_operation. simpl.
    now destruct (backend_execute _ _).
Qed.

Lemma built_operation_executes_witness :
  exists o,
    @SaveOperation_execute _ Demo.get_backend
      (fst (@SaveOperation_buildOperation _ Demo.get_backend
              Samples.resolved_save)) Demo.empty_world
    = ({| heap := Demo.answer_heap; trace := [EvExecute o] |}, inr 0).
Proof.
  destruct (@built_operation_executes _ Demo.get_backend Demo.empty_world)
    as [Hsave _].
  destruct (Hsave Samples.resolved_save eq_refl) as (o & _ & Hx).
  exists o. exact Hx.
Defined.

Lemma buildOperation_succeeds_iff_witness :
  snd (@SaveOperation_buildOperation _ Demo.get_backend Samples.resolved_save)
  = inr tt
  /\ snd (@SaveOperation_buildOperation _ Demo.get_backend Samples.fresh_save)
     <> inr tt.
Proof.
  destruct (@buildOperation_succeeds_iff _ Demo.get_backend) as [Hsave _].
  split.
  - destruct (Hsave Samples.resolved_save) as [Hiff _].
    apply Hiff. split; discriminate.
  - destruct (Hsave Samples.fresh_save) as [Hiff _].
    intros Hok. apply Hiff in Hok. destruct Hok as [_ Ht]. now apply Ht.
Defined.

(** ** Further properties of executing a get operation *)

(** X14: when the backend call of a get operation fails, [execute]
    raises the backend's error as it is: the heap is the one the backend
    left, the backend was called once, and neither the continuation token
    nor the ordering is applied. *)
Theorem get_backend_error_propagates `{Backend} (this : GetOperation)
    (w : World) (o : BackendOperation) (h1 : Heap) (e : JsError) :
  operation (get_base this) = Some o ->
  backend_execute o (heap w) = (h1, inl e) ->
  GetOperation_execute this w
  = ({| heap := h1; trace := trace w ++ [EvExecute o] |}, inl e).
Proof.
  intros Ho Hb.
  unfold GetOperation_execute, bind, BaseOperation_execute, run_operation.
  now rewrite Ho, Hb.
Qed.

Lemma get_backend_error_propagates_witness :
  @GetOperation_execute _ Samples.failing_get_backend
    (Demo.built_get (Some "T1") (Some ["k"])) Demo.empty_world
  = ({| heap := Demo.bare_heap; trace := [EvExecute Demo.get_handle] |},
     inl Demo.timeout_error).
Proof.
  apply (@get_backend_error_propagates _ Samples.failing_get_backend
           (Demo.built_get (Some "T1") (Some ["k"])) Demo.empty_world
           Demo.get_handle Demo.bare_heap Demo.timeout_error); reflexivity.
Defined.

(** X15: a successful get leaves the heap exactly as the backend left it
    when there is nothing to stamp and nothing to order: no continuation
    token was supplied or the envelope has no [queryResults], and no
    ordering was supplied or the envelope has no [queryResults] or the
    query result has no [allResultsEnc]; in particular the orderer is not
    applied to an undefined list. *)
Theorem get_without_post_processing `{Backend} (this : GetOperation)
    (w : World) (o : BackendOperation) (h1 : Heap) (res : ref) :
  operation (get_base this) = Some o ->
  backend_execute o (heap w) = (h1, inr res) ->
  constResToken this = None \/ read_queryResults h1 res = None ->
  orderer this = None
  \/ read_queryResults h1 res = None
  \/ (forall q, read_queryResults h1 res = Some q ->
                read_allResultsEnc h1 q = None) ->
  GetOperation_execute this w
  = ({| heap := h1; trace := trace w ++ [EvExecute o] |}, inr res).
Proof.
  intros Ho Hb Htok Hord.
  rewrite (GetOperation_execute_run this w o h1 res Ho Hb).
  assert (Hs : stamp_pageToken this res h1 = h1).
  { unfold stamp_pageToken. destruct Htok as [-> | ->]; [reflexivity|].
    now destruct (constResToken this). }
  rewrite Hs.
  assert (Hr : order_results this res h1 = h1).
  { unfold order_results. destruct Hord as [-> | [-> | Hq]]; [reflexivity | |].
    - now destruct (orderer this).
    - destruct (orderer this); [|reflexivity].
      destruct (read_queryResults h1 res) as [q|]; [|reflexivity].
      now rewrite (Hq q eq_refl). }
  now rewrite Hr.
Qed.

Lemma get_without_post_processing_witness :
  @GetOperation_execute _ Demo.bare_backend
    (Demo.built_get (Some "T1") (Some ["k"])) Demo.empty_world
  = ({| heap := Demo.bare_heap; trace := [EvExecute Demo.get_handle] |},
     inr 0).
Proof.
  apply (@get_without_post_processing _ Demo.bare_backend
           (Demo.built_get (Some "T1") (Some ["k"])) Demo.empty_world
           Demo.get_handle Demo.bare_heap 0);
    [reflexivity | reflexivity | right; reflexivity
    | right; left; reflexivity].
Defined.

(** ** Further properties of batches *)

Section MoreBatchProofs.
Context `{Backend}.

Lemma collect_operations_spec (ops : list BaseOperation) :
  forall acc arr : list BackendOperation,
    collect_operations ops acc = inr arr ->
    map Some arr = map Some acc ++ map operation ops.
Proof.
  induction ops as [|op ops IH]; intros acc arr Hc; simpl in Hc.
  - injection Hc as <-. simpl. now rewrite app_nil_r.
  - destruct (operation op) as [o|] eqn:Ho; [|discriminate].
    rewrite (IH _ _ Hc), map_app. simpl. rewrite Ho, <- app_assoc.
    reflexivity.
Qed.

Lemma collect_operations_unbuilt (ops : list BaseOperation) :
  forall acc : list BackendOperation,
    Exists (fun op => operation op = None) ops ->
    collect_operations ops acc
    = inl (new_Error "Batch error, a base operation is not built").
Proof.
  induction ops as [|op ops IH]; intros acc Hex; [inversion Hex|].
  simpl. destruct (operation op) as [o|] eqn:Ho; [|reflexivity].
  apply IH. inversion Hex; subst; [congruence | assumption].
Qed.

Lemma check_members_snoc (l : list BaseOperation) (op : BaseOperation) :
  check_members l = inr tt ->
  check_members (l ++ [op])
  = if is_batch_or_get (action op) then inl composition_error else inr tt.
Proof.
  induction l as [|a l IH]; simpl; [reflexivity|].
  destruct (is_batch_or_get (action a)); [discriminate | exact IH].
Qed.

Lemma filter_done_map_done (l : list BaseOperation) :
  List.filter is_done_event (map EvDone l) = map EvDone l.
Proof. induction l; simpl; [reflexivity | now f_equal]. Qed.

Lemma filter_map_none (f : Event -> bool) (g : BaseOperation -> Event)
    (l : list BaseOperation) :
  (forall op, f (g op) = false) -> List.filter f (map g l) = [].
Proof.
  intros Hf. induction l as [|a l IH]; simpl; [reflexivity|].
  now rewrite Hf.
Qed.

Lemma filter_canCreateTable_none (ops : list BaseOperation) :
  (forall op, op ∈ ops -> canCreateTable op = false) ->
  List.filter canCreateTable ops = [].
Proof.
  induction ops as [|op ops IH]; intros Hall; simpl; [reflexivity|].
  rewrite (Hall op) by (apply list_elem_of_In; now left).
  apply IH. intros op' Hin. apply Hall. apply list_elem_of_In. right.
  now apply list_elem_of_In.
Qed.

End MoreBatchProofs.

(** X16: the handle a batch composes is constructed from the backend
    operations of its members, all of them and in the order of the batch;
    it is of a batch class exactly when the batch is isolated, of an
    operation-array class otherwise, and of the adapter family of the
    database core; composing changes neither the members nor the
    isolation of the batch. *)
Theorem batch_handle_contents `{Backend} (this this1 : BatchOperation) :
  BatchOperation_buildOperation this = (this1, inr tt) ->
  exists h,
    batch_operation this1 = Some h
    /\ map Some (handle_operations h) = map operation (operationsArray this)
    /\ length (handle_operations h) = length (operationsArray this)
    /\ handle_is_batch h = isolation this
    /\ handle_core h = core
    /\ operationsArray this1 = operationsArray this
    /\ isolation this1 = isolation this
    /\ batch_action this1 = batch_action this.
Proof.
  unfold BatchOperation_buildOperation.
  destruct (collect_operations (operationsArray this) []) as [e|arr] eqn:Hc;
    [discriminate|].
  intros [= <-]. simpl. eexists. split; [reflexivity|].
  pose proof (collect_operations_spec _ _ _ Hc) as Hspec. simpl in Hspec.
  assert (Hlen : length arr = length (operationsArray this)).
  { rewrite <- (length_map Some arr), Hspec. apply length_map. }
  destruct core, (isolation this); simpl; repeat split; auto.
Qed.

Lemma batch_handle_contents_witness :
  exists h,
    batch_operation Demo.built_batch3 = Some h
    /\ length (handle_operations h) = 3
    /\ handle_is_batch h = true.
Proof.
  destruct (@batch_handle_contents _ (Demo.batch_backend (inr 7))
              Demo.batch3 Demo.built_batch3 eq_refl)
    as (h & Hh & _ & Hlen & Hb & _).
  exists h. split; [exact Hh|]. split; [exact Hlen | exact Hb].
Defined.

(** X17: a batch that has a member without backend operation cannot be
    executed: [execute] throws "Batch error, a base operation is not
    built", also when the batch holds a handle composed earlier, and calls
    nothing: the batch and the world are as they were. *)
Theorem batch_with_unbuilt_member `{Backend} (this : BatchOperation)
    (op : BaseOperation) (w : World) :
  op ∈ operationsArray this ->
  operation op = None ->
  BatchOperation_execute this w
  = (this,
     (w, inl (new_Error "Batch error, a base operation is not built"))).
Proof.
  intros Hin Hop. unfold BatchOperation_execute, BatchOperation_buildOperation.
  rewrite collect_operations_unbuilt; [reflexivity|].
  apply Exists_exists. exists op. auto.
Qed.

Lemma batch_with_unbuilt_member_witness :
  @BatchOperation_execute _ (Demo.batch_backend (inr 7))
    (Demo.batch_of [Demo.plain_b; Samples.unbuilt_member]) Demo.empty_world
  = (Demo.batch_of [Demo.plain_b; Samples.unbuilt_member],
     (Demo.empty_world,
      inl (new_Error "Batch error, a base operation is not built"))).
Proof.
  apply (@batch_with_unbuilt_member _ (Demo.batch_backend (inr 7))
           (Demo.batch_of [Demo.plain_b; Samples.unbuilt_member])
           Samples.unbuilt_member Demo.empty_world).
  - apply list_elem_of_In. right. left. reflexivity.
  - reflexivity.
Defined.

(** X18: [execute] composes the handle anew from the members each time it
    is called and never uses the handle the batch holds: the world and the
    outcome of an execution do not depend on the [operation] field of the
    batch, and neither does the batch it leaves when composing succeeds. *)
Theorem batch_execute_ignores_stale_handle `{Backend}
    (this : BatchOperation) (stale : option BackendBatch) (w : World) :
  snd (BatchOperation_execute (with_batch_operation stale this) w)
  = snd (BatchOperation_execute this w)
  /\ (snd (BatchOperation_buildOperation this) = inr tt ->
      BatchOperation_execute (with_batch_operation stale this) w
      = BatchOperation_execute this w).
Proof.
  unfold BatchOperation_execute, BatchOperation_buildOperation. simpl.
  destruct (collect_operations (operationsArray this) []); simpl.
  - split; [reflexivity | discriminate].
  - split; reflexivity.
Qed.

Lemma batch_execute_ignores_stale_handle_witness :
  @BatchOperation_execute _ (Demo.batch_backend (inr 7))
    (with_batch_operation (Some Demo.handle2) Demo.batch3) Demo.empty_world
  = @BatchOperation_execute _ (Demo.batch_backend (inr 7))
      Demo.batch3 Demo.empty_world.
Proof.
  destruct (@batch_execute_ignores_stale_handle _ (Demo.batch_backend (inr 7))
              Demo.batch3 (Some Demo.handle2) Demo.empty_world) as [_ Hsame].
  apply Hsame. reflexivity.
Defined.

(** X19: pushing a member into a batch made by the constructor is
    constructing the batch over the extended list: when the constructor
    accepts the list with the member appended, [push] leaves exactly the
    batch the constructor would return, and when the constructor refuses
    it, [push] throws the same error and leaves the batch as it was. *)
Theorem push_agrees_with_constructor `{Shapes} (l : list BaseOperation)
    (isolation : bool) (b : BatchOperation) (op : BaseOperation) :
  BatchOperation_new l isolation = inr b ->
  BatchOperation_push b op
  = match BatchOperation_new (l ++ [op]) isolation with
    | inr b' => (b', inr tt)
    | inl e => (b, inl e)
    end.
Proof.
  unfold BatchOperation_new, BatchOperation_push.
  destruct (check_members l) as [e|[]] eqn:Hl; [discriminate|].
  intros [= <-]. rewrite (check_members_snoc l op Hl).
  destruct (is_batch_or_get (action op)); reflexivity.
Qed.

Lemma push_agrees_with_constructor_witness :
  BatchOperation_push (Demo.batch_of [Demo.plain_b]) Demo.creatable_c
  = match BatchOperation_new ([Demo.plain_b] ++ [Demo.creatable_c]) true with
    | inr b' => (b', inr tt)
    | inl e => (Demo.batch_of [Demo.plain_b], inl e)
    end.
Proof.
  apply (@push_agrees_with_constructor Demo.shapes [Demo.plain_b] true).
  reflexivity.
Defined.

(** X20: what one [execute] of a batch does, in every case: the backend
    is called at most once, through the composed handle and never through
    a member's own operation; [done()] is invoked on no member when
    [execute] throws; and when [execute] returns, the backend was called
    exactly once, no [createTable()] was invoked, and [done()] was invoked
    on the members in the order of the batch. *)
Theorem batch_execute_events `{Backend} (this : BatchOperation) (w : World) :
  exists evs : list Event,
    trace (fst (snd (BatchOperation_execute this w))) = trace w ++ evs
    /\ List.filter is_execute_event evs = []
    /\ length (List.filter is_batch_execute_event evs) <= 1
    /\ (forall e, snd (snd (BatchOperation_execute this w)) = inl e ->
                  List.filter is_done_event evs = [])
    /\ (forall res, snd (snd (BatchOperation_execute this w)) = inr res ->
                    List.filter is_createTable_event evs = []
                    /\ List.filter is_done_event evs
                       = map EvDone (operationsArray this)
                    /\ length (List.filter is_batch_execute_event evs) = 1).
Proof.
  unfold BatchOperation_execute.
  destruct (BatchOperation_buildOperation this) as [this1 [e|[]]] eqn:Hb.
  - exists []. simpl. rewrite app_nil_r. repeat split; auto; discriminate.
  - pose proof (BatchOperation_buildOperation_members _ _ _ Hb) as Hops.
    destruct (batch_operation this1) as [h|].
    2:{ exists []. simpl. rewrite app_nil_r.
        repeat split; auto; discriminate. }
    unfold bind, catch, run_batch.
    destruct (backend_execute_batch h (heap w)) as [h1 [err|res]].
    + unfold recovery_handler. destruct (is_table_missing err).
      * unfold bind.
        destruct (createAllTables_run this1
                    {| heap := h1; trace := trace w ++ [EvExecuteBatch h] |})
          as (settled & r & Hrun & _).
        rewrite Hrun. cbn [heap trace].
        exists ([EvExecuteBatch h]
                ++ map EvCreateTable
                     (List.filter canCreateTable (operationsArray this1))
                ++ map EvSettled settled).
        assert (Hnone : forall f : Event -> bool,
                   (forall op, f (EvCreateTable op) = false) ->
                   (forall op, f (EvSettled op) = false) ->
                   List.filter f
                     (map EvCreateTable
                        (List.filter canCreateTable (operationsArray this1))
                      ++ map EvSettled settled) = []).
        { intros f Hc Hs.
          now rewrite List.filter_app, !filter_map_none by assumption. }
        split; [destruct r; cbn; now rewrite <- app_assoc|].
        split; [simpl; now apply Hnone|].
        split; [simpl; now rewrite Hnone|].
        split; [intros _ _; simpl; now apply Hnone|].
        intros res Hres. destruct r; discriminate Hres.
      * exists [EvExecuteBatch h]. simpl.
        repeat split; auto; discriminate.
    + exists ([EvExecuteBatch h] ++ map EvDone (operationsArray this1)).
      unfold emit, ret. cbn [heap trace fst snd].
      split; [now rewrite <- app_assoc|].
      split; [simpl; now apply filter_map_none|].
      split; [simpl; now rewrite filter_map_none|].
      split; [discriminate|].
      intros _ _. simpl.
      split; [now apply filter_map_none|].
      split; [now rewrite filter_done_map_done, Hops|].
      now rewrite filter_map_none.
Qed.

(** X21: when no member of the batch may create its table, a backend
    error classified as table-missing is still replaced by
    [tableCreationError], although no [createTable()] is invoked: the
    only event of the execution is the backend call. *)
Theorem recovery_without_creatable_member `{Backend}
    (this this1 : BatchOperation) (w : World) (h : BackendBatch) (h1 : Heap)
    (err : JsError) :
  BatchOperation_buildOperation this = (this1, inr tt) ->
  batch_operation this1 = Some h ->
  backend_execute_batch h (heap w) = (h1, inl err) ->
  is_table_missing err = true ->
  (forall op, op ∈ operationsArray this -> canCreateTable op = false) ->
  BatchOperation_execute this w
  = (this1,
     ({| heap := h1; trace := trace w ++ [EvExecuteBatch h] |},
      inl tableCreationError)).
Proof.
  intros Hbuild Hh Hback Hclass Hnone.
  pose proof (BatchOperation_buildOperation_members _ _ _ Hbuild) as Hops.
  rewrite (BatchOperation_execute_built this this1 w h Hbuild Hh).
  unfold bind, catch, run_batch. rewrite Hback.
  unfold recovery_handler. rewrite Hclass.
  unfold bind, BatchOperation_createAllTables, bind, emit, Promise_all.
  rewrite Hops, (filter_canCreateTable_none _ Hnone). simpl.
  unfold ret, throw. now rewrite !app_nil_r.
Qed.

Lemma recovery_without_creatable_member_witness :
  @BatchOperation_execute _ (Demo.batch_backend (inl Demo.unconfigured))
    Samples.plain_batch Demo.empty_world
  = (Samples.built_plain_batch,
     ({| heap := heap Demo.empty_world;
         trace := [EvExecuteBatch Demo.handle2] |},
      inl tableCreationError)).
Proof.
  apply (@recovery_without_creatable_member _
           (Demo.batch_backend (inl Demo.unconfigured))
           Samples.plain_batch Samples.built_plain_batch Demo.empty_world
           Demo.handle2 (heap Demo.empty_world) Demo.unconfigured);
    try reflexivity.
  intros op Hin. apply list_elem_of_In in Hin. simpl in Hin.
  destruct Hin as [<- | [<- | []]]; reflexivity.
Defined.

Lemma batch_execute_events_witness :
  exists evs : list Event,
    trace (fst (snd (@BatchOperation_execute _
                       (Demo.batch_backend (inl Demo.timeout_error))
                       Demo.batch3 Demo.empty_world)))
    = trace Demo.empty_world ++ evs
    /\ List.filter is_done_event evs = [].
Proof.
  destruct (@batch_execute_events _
              (Demo.batch_backend (inl Demo.timeout_error))
              Demo.batch3 Demo.empty_world)
    as (evs & Ht & _ & _ & Hfail & _).
  exists evs. split; [exact Ht|].
  apply (Hfail Demo.timeout_error). reflexivity.
Defined.

(** ** The targeted table creation *)

Lemma all_table_class_app (a b : string) :
  all_table_class (String.append a b)
  = all_table_class a && all_table_class b.
Proof.
  induction a as [|c a IH]; simpl; [reflexivity|].
  now rewrite IH, andb_assoc.
Qed.

Lemma match_trailing_name_all (s : string) :
  all_table_class s = true -> match_trailing_name s = Some s.
Proof. destruct s as [|c s]; simpl; [reflexivity | now intros ->]. Qed.

Lemma match_trailing_name_app (prefix : string) (c : ascii) (name : string) :
  in_table_class c = false -> all_table_class name = true ->
  match_trailing_name (String.append prefix (String c name)) = Some name.
Proof.
  intros Hc Hname. induction prefix as [|a prefix IH].
  - simpl. rewrite Hc. simpl. now apply match_trailing_name_all.
  - change (String.append (String a prefix) (String c name))
      with (String a (String.append prefix (String c name))).
    cbn [match_trailing_name].
    change (all_table_class (String a (String.append prefix (String c name))))
      with (in_table_class a
            && all_table_class (String.append prefix (String c name))).
    rewrite all_table_class_app. simpl. rewrite Hc.
    rewrite andb_false_r, andb_false_r. exact IH.
Qed.

Lemma all_table_class_concat (p : list string) :
  forallb all_table_class p = true ->
  all_table_class (String.concat "_" p) = true.
Proof.
  induction p as [|c p IH]; intros Hp; [reflexivity|].
  simpl in Hp. apply andb_true_iff in Hp as [Hc Hp].
  destruct p as [|c' p]; [exact Hc|].
  rewrite concat_separator_cons by discriminate.
  rewrite all_table_class_app, Hc. simpl. now apply IH.
Qed.

Lemma create_first_named_skip `{Shapes} (pre rest : list BaseOperation)
    (name : string) :
  (forall p, p ∈ pre -> buildTableName (collections p) <> name) ->
  create_first_named (pre ++ rest) name = create_first_named rest name.
Proof.
  induction pre as [|p pre IH]; intros Hpre; simpl; [reflexivity|].
  destruct (String.eqb_spec (buildTableName (collections p)) name) as [E|_].
  - exfalso. apply (Hpre p); [apply list_elem_of_In; now left | exact E].
  - apply IH. intros q Hq. apply Hpre. apply list_elem_of_In. right.
    now apply list_elem_of_In.
Qed.

(** X22: the expression of the targeted table creation always matches:
    the name it extracts from an error message is the longest suffix of
    the message made of the characters ".", "_", letters and digits, that
    is, a suffix of such characters that is the whole message or is
    preceded by a character of another kind; the branch that reports an
    unparsable message is never taken. *)
Theorem match_trailing_name_longest_suffix (errmsg : string) :
  exists prefix name : string,
    match_trailing_name errmsg = Some name
    /\ errmsg = String.append prefix name
    /\ all_table_class name = true
    /\ (prefix = ""
        \/ exists (p : string) (c : ascii),
             prefix = String.append p (String c "")
             /\ in_table_class c = false).
Proof.
  induction errmsg as [|c s (prefix & name & Hm & Hs & Hname & Hmax)].
  - exists "", "". repeat split; auto.
  - cbn [match_trailing_name].
    destruct (all_table_class (String c s)) eqn:Hall.
    + exists "", (String c s). repeat split; auto.
    + exists (String c prefix), name. split; [exact Hm|].
      split; [simpl; now rewrite <- Hs|]. split; [exact Hname|].
      right. destruct Hmax as [-> | (p & c' & -> & Hc')].
      * exists "", c. split; [reflexivity|].
        simpl in Hs. subst s. simpl in Hall. rewrite Hname in Hall.
        now rewrite andb_true_r in Hall.
      * exists (String c p), c'. split; [reflexivity | exact Hc'].
Qed.

(** X23: the targeted table creation awaits [createTable()] of the first
    member, in the order of the batch, whose table name is the name
    extracted from the message, whether or not that member has the
    permission [canCreateTable]; no other member is called, and the call's
    rejection, if any, is raised. *)
Theorem targeted_createTable_first_match `{Shapes} (this : BatchOperation)
    (errmsg name : string) (pre post : list BaseOperation)
    (op : BaseOperation) (w : World) :
  match_trailing_name errmsg = Some name ->
  operationsArray this = pre ++ op :: post ->
  (forall p, p ∈ pre -> buildTableName (collections p) <> name) ->
  buildTableName (collections op) = name ->
  BatchOperation_createTable this errmsg w
  = ({| heap := heap w;
        trace := trace w ++ [EvCreateTable op; EvSettled op] |},
     match rejection (createTable op) with
     | Some e => inl e
     | None => inr tt
     end).
Proof.
  intros Hm Hops Hpre Hop. unfold BatchOperation_createTable.
  rewrite Hm, Hops, (create_first_named_skip pre (op :: post) name Hpre).
  simpl. rewrite Hop, String.eqb_refl.
  unfold bind, emit. simpl. rewrite <- app_assoc. simpl.
  destruct (rejection (createTable op)); reflexivity.
Qed.

Lemma targeted_createTable_first_match_witness :
  BatchOperation_createTable
    (Demo.batch_of [Demo.creatable_a; Samples.orders_member])
    "unconfigured table users_orders" Demo.empty_world
  = ({| heap := heap Demo.empty_world;
        trace := [EvCreateTable Samples.orders_member;
                  EvSettled Samples.orders_member] |},
     inl Demo.creation_failed).
Proof.
  apply (@targeted_createTable_first_match Demo.shapes
           (Demo.batch_of [Demo.creatable_a; Samples.orders_member])
           "unconfigured table users_orders" "users_orders"
           [Demo.creatable_a] [] Samples.orders_member Demo.empty_world);
    try reflexivity.
  intros p Hp. apply list_elem_of_In in Hp. simpl in Hp.
  destruct Hp as [<- | []]. discriminate.
Defined.

(** X24: when no member of the batch has the extracted name as its table
    name, the targeted table creation calls nothing and throws an error
    whose message ends with the extracted name. *)
Theorem targeted_createTable_no_match `{Shapes} (this : BatchOperation)
    (errmsg name : string) (w : World) :
  match_trailing_name errmsg = Some name ->
  (forall p, p ∈ operationsArray this ->
             buildTableName (collections p) <> name) ->
  BatchOperation_createTable this errmsg w
  = (w,
     inl (new_Error
            (String.append
               "Unable to find which operation triggered the error inside the batch "
               name))).
Proof.
  intros Hm Hnone. unfold BatchOperation_createTable. rewrite Hm.
  rewrite <- (app_nil_r (operationsArray this)).
  now rewrite (create_first_named_skip (operationsArray this) [] name Hnone).
Qed.

Lemma targeted_createTable_no_match_witness :
  BatchOperation_createTable Demo.batch3 "unconfigured table orders"
    Demo.empty_world
  = (Demo.empty_world,
     inl (new_Error
            "Unable to find which operation triggered the error inside the batch orders")).
Proof.
  apply (@targeted_createTable_no_match Demo.shapes Demo.batch3
           "unconfigured table orders" "orders" Demo.empty_world);
    [reflexivity|].
  intros p Hp. apply list_elem_of_In in Hp. simpl in Hp.
  destruct Hp as [<- | [<- | [<- | []]]]; discriminate.
Defined.

(** X25: the table name of a path whose collection names are made of the
    characters ".", "_", letters and digits is read back from any message
    that ends with a character of another kind followed by that table
    name, such as "unconfigured table " followed by the name. *)
Theorem table_name_read_back (p : list string) (prefix : string) (c : ascii) :
  forallb all_table_class p = true ->
  in_table_class c = false ->
  match_trailing_name
    (String.append prefix (String c (buildTableName p)))
  = Some (buildTableName p).
Proof.
  intros Hp Hc. apply match_trailing_name_app; [exact Hc|].
  rewrite buildTableName_concat. now apply all_table_class_concat.
Qed.

Lemma table_name_read_back_witness :
  match_trailing_name
    (String.append "unconfigured table"
       (String " " (buildTableName ["users"; "orders"])))
  = Some "users_orders".
Proof.
  apply (table_name_read_back ["users"; "orders"] "unconfigured table" " ");
    reflexivity.
Defined.

(** ** The classification, declaratively *)

Lemma substring_prefix_iff (p s : string) :
  substring 0 (String.length p) s = p
  <-> exists rest, s = String.append p rest.
Proof.
  revert s. induction p as [|a p IH]; intros s.
  - simpl. split; [intros _; now exists s|].
    intros _. now destruct s.
  - destruct s as [|b s]; simpl.
    + split; [discriminate | intros [rest Hr]; discriminate].
    + split.
      * intros [= -> Hp]. apply IH in Hp as [rest ->]. now exists rest.
      * intros [rest [= -> ->]]. f_equal. apply IH. now exists rest.
Qed.

(** X26: a backend error is classified as table-missing exactly when its
    code is 8704 and its message starts with "unconfigured table", or its
    message, whatever its code, consists of "Collection ", a possibly empty
    run of characters between "A" and "z" in code order, " does not
    exist", and at least one more character that is not a line break. *)
Theorem is_table_missing_iff (err : JsError) :
  is_table_missing err = true
  <-> (code err = Some 8704%Z
       /\ exists rest,
            message err = String.append "unconfigured table" rest)
      \/ collection_missing_shape (message err).
Proof.
  unfold is_table_missing.
  rewrite orb_true_iff, andb_true_iff, matches_collection_missing_spec.
  rewrite String.eqb_eq.
  change 18 with (String.length "unconfigured table").
  rewrite substring_prefix_iff.
  assert (Hcode : code_is 8704 (code err) = true <-> code err = Some 8704%Z).
  { unfold code_is. destruct (code err) as [k|].
    - rewrite Z.eqb_eq. split; [now intros -> | now intros [= ->]].
    - split; discriminate. }
  rewrite Hcode. reflexivity.
Qed.

Lemma is_table_missing_iff_witness :
  is_table_missing Demo.unconfigured = true.
Proof.
  apply is_table_missing_iff. left. split; [reflexivity|].
  exists " users". reflexivity.
Defined.

Lemma buildEntry_keys_and_values_witness :
  size (buildEntry ["a"; "a"] ["1"; "2"; "3"]) <= 3
  /\ "3" ∈ ["1"; "2"; "3"].
Proof.
  destruct (buildEntry_keys_and_values ["a"; "a"] ["1"; "2"; "3"])
    as [Hsize Hkeys].
  split; [exact Hsize|].
  destruct (Hkeys "undefined" "3" eq_refl) as [Hv _]. exact Hv.
Defined.
